(** * Kinematic-tree model of phobos: [XMLRobot] and its entity classes

    A shallow embedding of [phobos/io/xmlrobot.py] and
    [phobos/io/representation.py].

    - Python objects live in a heap and are named by their identity
      ([id(obj)], a [ref]); lists and dicts of the robot hold references.
    - Python dicts are insertion-ordered association lists with unique keys.
    - A method that can raise returns an [outcome]; [while] loops carry a
      fuel argument and answer [OutOfFuel] when it is exhausted; a
      recursive method carries the recursion depth that the interpreter
      still allows and raises [RecursionError] beyond it.
    - numpy floats are idealised as real numbers. *)

From Stdlib Require Import String Ascii List Bool Arith ZArith Lia.
From Stdlib Require Import Reals Lra.
From Stdlib Require Import DecimalString.
Import ListNotations.
Open Scope string_scope.
Open Scope list_scope.

Set Implicit Arguments.

(** ** Exceptions and outcomes *)

Inductive exn : Type :=
| AssertionError
| KeyError
| AttributeError
| TypeError
| ValueError
| IndexError
| RecursionError
| Exception.

Inductive outcome (A : Type) : Type :=
| Return (a : A)
| Raise (e : exn)
| OutOfFuel.

Arguments Return {A} a.
Arguments Raise {A} e.
Arguments OutOfFuel {A}.

Definition bind {A B : Type} (m : outcome A) (f : A -> outcome B) : outcome B :=
  match m with
  | Return a => f a
  | Raise e => Raise e
  | OutOfFuel => OutOfFuel
  end.

Notation "x <- m ;; k" := (bind m (fun x => k))
  (at level 61, m at next level, right associativity).

(** ** Strings *)

(** [needle in hay] on Python strings. *)
Fixpoint str_in (needle hay : string) : bool :=
  prefix needle hay ||
  match hay with
  | EmptyString => false
  | String _ hay' => str_in needle hay'
  end.

(** [s.endswith(suffix)]. *)
Definition endswith (s suffix : string) : bool :=
  Nat.leb (String.length suffix) (String.length s) &&
  String.eqb
    (substring (String.length s - String.length suffix) (String.length suffix) s)
    suffix.

(** ["{}".format(n)] for a non-negative integer. *)
Definition format_nat (n : nat) : string :=
  NilEmpty.string_of_uint (Nat.to_uint n).

(** [x in [a, b, ...]] on a list of strings. *)
Definition str_in_list (x : string) (l : list string) : bool :=
  existsb (String.eqb x) l.

(** ** Dicts *)

Definition dict (V : Type) : Type := list (string * V).

Section Dict.
Context {V : Type}.

(** [d.get(k)]: [None] when the key is absent. *)
Fixpoint dict_get (d : dict V) (k : string) : option V :=
  match d with
  | [] => None
  | (k', v) :: d' => if k' =? k then Some v else dict_get d' k
  end.

(** [d[k] = v]: an existing key keeps its place. *)
Fixpoint dict_set (d : dict V) (k : string) (v : V) : dict V :=
  match d with
  | [] => [(k, v)]
  | (k', v') :: d' =>
      if k' =? k then (k, v) :: d' else (k', v') :: dict_set d' k v
  end.

(** [d.keys()], in insertion order. *)
Definition dict_keys (d : dict V) : list string := map fst d.

(** [k in d]. *)
Definition dict_mem (k : string) (d : dict V) : bool :=
  str_in_list k (dict_keys d).

(** [d[k]], raising [KeyError] on a missing key. *)
Definition dict_item (d : dict V) (k : string) : outcome V :=
  match dict_get d k with
  | Some v => Return v
  | None => Raise KeyError
  end.
End Dict.

(** ** Entities (representation.py) *)

(** Object identity, [id(obj)]. *)
Definition ref : Type := nat.

Record Pose : Type := {
  xyz : option (list R);
  rpy : option (list R);
  relative_to : option string
}.

Record JointMimic : Type := {
  mimic_joint : string;
  multiplier : R;
  offset : R
}.

Record Joint : Type := {
  joint_name : string;
  parent : string;
  child : string;
  joint_type : option string;
  _origin : option Pose;
  mimic : option JointMimic;
  motor : option string
}.

Record Link : Type := {
  link_name : string
}.

(** [Visual]: only the material reference [_material] is read by the
    robot-level code. *)
Record Visual : Type := {
  visual_name : option string;
  visual_origin : option Pose;
  _material : option ref
}.

(** The heap: joint and link objects, and the [name] attribute of the
    objects of the generic collections (materials, sensors, transmissions),
    which [add_aggregate] rewrites in place. *)
Record Heap : Type := {
  joint_at : ref -> Joint;
  link_at : ref -> Link;
  name_at : ref -> string
}.

Definition set_name (h : Heap) (o : ref) (n : string) : Heap :=
  {| joint_at := joint_at h;
     link_at := link_at h;
     name_at := fun o' => if Nat.eqb o' o then n else name_at h o' |}.

(** ** XMLRobot (xmlrobot.py) *)

Record XMLRobot : Type := {
  joints : list ref;
  links : list ref;
  joint_map : dict ref;
  link_map : dict ref;
  parent_map : dict (string * string);
  child_map : dict (list (string * string));
  materials : list ref;
  transmissions : list ref;
  sensors : list ref
}.

(** The robot right after [__init__] has created its empty indices. *)
Definition empty_robot : XMLRobot :=
  {| joints := []; links := []; joint_map := []; link_map := [];
     parent_map := []; child_map := [];
     materials := []; transmissions := []; sensors := [] |}.

(** [elem in objs] on a list of objects: the entity classes define no
    [__eq__], so membership is by identity. *)
Definition obj_in (elem : ref) (objs : list ref) : bool :=
  existsb (Nat.eqb elem) objs.

(** The methods of [XMLRobot] whose name ends in [s]: [getattr] finds
    them, and the loop over the bound method that follows in both callers
    raises [TypeError]. *)
Definition method_names : list string :=
  ["_get_children_lists"; "get_all_visuals"; "get_all_collisions";
   "get_leaves"].

(** [getattr(self, attr)] together with the iteration that both callers
    start on its value.  The names handled are those that xmlrobot.py
    itself defines; the attributes inherited from [Representation], which
    is not under src/, are treated as absent. *)
Definition getattr_list (self : XMLRobot) (attr : string) : outcome (list ref) :=
  if attr =? "joints" then Return (joints self)
  else if attr =? "links" then Return (links self)
  else if attr =? "materials" then Return (materials self)
  else if attr =? "transmissions" then Return (transmissions self)
  else if attr =? "sensors" then Return (sensors self)
  else if str_in_list attr method_names then Raise TypeError
  else Raise AttributeError.

(** [setattr(self, attr, objs)] for the generic collections. *)
Definition setattr_list (self : XMLRobot) (attr : string) (objs : list ref)
  : XMLRobot :=
  {| joints := if attr =? "joints" then objs else joints self;
     links := if attr =? "links" then objs else links self;
     joint_map := joint_map self;
     link_map := link_map self;
     parent_map := parent_map self;
     child_map := child_map self;
     materials := if attr =? "materials" then objs else materials self;
     transmissions :=
       if attr =? "transmissions" then objs else transmissions self;
     sensors := if attr =? "sensors" then objs else sensors self |}.

(** The names collected by the loop of the generic branch of
    [add_aggregate]: those of the objects whose name contains [elem.name]. *)
Definition colliding (h : Heap) (elem : ref) (objects : list ref) : list string :=
  map (name_at h)
      (filter (fun obj => str_in (name_at h elem) (name_at h obj)) objects).

(** [XMLRobot.add_aggregate(typeName, elem)].  The heap and the robot are
    threaded through; nothing is changed before the only point that can
    raise ([getattr]). *)
Definition add_aggregate (typeName : string) (elem : ref)
  (st : Heap * XMLRobot) : outcome (Heap * XMLRobot) :=
  let (h, self) := st in
  if str_in_list typeName ["joint"; "joints"] then
    let joint := joint_at h elem in
    Return (h,
      {| joints := if negb (obj_in elem (joints self))
                   then joints self ++ [elem] else joints self;
         links := links self;
         joint_map := dict_set (joint_map self) (joint_name joint) elem;
         link_map := link_map self;
         parent_map := dict_set (parent_map self) (child joint)
                                (joint_name joint, parent joint);
         child_map :=
           match dict_get (child_map self) (parent joint) with
           | Some l =>
               dict_set (child_map self) (parent joint)
                        (l ++ [(joint_name joint, child joint)])
           | None =>
               dict_set (child_map self) (parent joint)
                        [(joint_name joint, child joint)]
           end;
         materials := materials self;
         transmissions := transmissions self;
         sensors := sensors self |})
  else if str_in_list typeName ["link"; "links"] then
    let link := link_at h elem in
    Return (h,
      {| joints := joints self;
         links := if negb (obj_in elem (links self))
                  then links self ++ [elem] else links self;
         joint_map := joint_map self;
         link_map := dict_set (link_map self) (link_name link) elem;
         parent_map := parent_map self;
         child_map := child_map self;
         materials := materials self;
         transmissions := transmissions self;
         sensors := sensors self |})
  else
    let typeName := if negb (endswith typeName "s")
                    then (typeName ++ "s")%string else typeName in
    objects <- getattr_list self typeName ;;
    let instances := colliding h elem objects in
    let h := match instances with
             | [] => h
             | _ :: _ =>
                 set_name h elem
                   (name_at h elem ++ "_" ++ format_nat (List.length instances))%string
             end in
    Return (h, setattr_list self typeName (objects ++ [elem])).

(** The registration loops of [XMLRobot.__init__]: joints first, then
    links.  (The entity-side [link_with_robot] calls that follow belong to
    the base class and do not touch the indices.) *)
Fixpoint add_all (typeName : string) (elems : list ref)
  (st : Heap * XMLRobot) : outcome (Heap * XMLRobot) :=
  match elems with
  | [] => Return st
  | e :: rest => st' <- add_aggregate typeName e st ;; add_all typeName rest st'
  end.

Definition XMLRobot_init (h : Heap) (joints links : list ref)
  : outcome (Heap * XMLRobot) :=
  st <- add_all "joint" joints (h, empty_robot) ;;
  add_all "link" links st.

(** [XMLRobot.get_root()]. *)
Fixpoint get_root_loop (self : XMLRobot) (keys : list string)
  (root : option string) : outcome (option string) :=
  match keys with
  | [] => Return root
  | link :: rest =>
      if negb (dict_mem link (parent_map self)) then
        match root with
        | Some _ => Raise AssertionError
        | None => get_root_loop self rest (Some link)
        end
      else get_root_loop self rest root
  end.

Definition get_root (self : XMLRobot) : outcome string :=
  root <- get_root_loop self (dict_keys (link_map self)) None ;;
  match root with
  | None => Raise AssertionError
  | Some r => Return r
  end.

(** [obj.name] for an object of the collection [attr]. *)
Definition attr_name (h : Heap) (attr : string) (obj : ref) : string :=
  if attr =? "joints" then joint_name (joint_at h obj)
  else if attr =? "links" then link_name (link_at h obj)
  else name_at h obj.

(** [XMLRobot.get_instance(targettype, target)]. *)
Definition get_instance (h : Heap) (self : XMLRobot) (targettype target : string)
  : outcome (option ref) :=
  let targettype := if negb (endswith targettype "s")
                    then (targettype ++ "s")%string else targettype in
  objs <- getattr_list self targettype ;;
  Return (find (fun obj => attr_name h targettype obj =? target) objs).

(** [XMLRobot.get_joint(joint_name)] for a name (the diagnostic printed on
    a miss is not modelled). *)
Definition get_joint (h : Heap) (self : XMLRobot) (joint_name : string)
  : outcome (option ref) :=
  get_instance h self "joint" joint_name.

(** [XMLRobot.get_material(material_name)] for a name. *)
Definition get_material (h : Heap) (self : XMLRobot) (material_name : string)
  : option ref :=
  find (fun mat => name_at h mat =? material_name) (materials self).

(** The two documented values of the [targettype] argument. *)
Inductive targettype : Type := joint_target | link_target.

(** [XMLRobot.get_parent(name, targettype)]. *)
Definition get_parent (self : XMLRobot) (name : string) (tt : targettype)
  : outcome (option (list string)) :=
  if dict_mem name (parent_map self) then
    parents <- dict_item (parent_map self) name ;;
    match tt with
    | link_target => Return (Some [snd parents])
    | joint_target => Return (Some [fst parents])
    end
  else if dict_mem name (child_map self) then Return None
  else Raise AssertionError.

(** [XMLRobot.get_children(name, targettype)] for a single name. *)
Definition get_children (self : XMLRobot) (name : string) (tt : targettype)
  : list string :=
  let children :=
    if dict_mem name (child_map self) then
      match dict_get (child_map self) name with
      | Some l => l
      | None => []
      end
    else [] in
  match tt with
  | joint_target => map fst children
  | link_target => map snd children
  end.

(** [XMLRobot._get_children_lists(parentlist, childrenlist, targettype)].
    [fuel] is the number of nested calls that Python's recursion limit
    still allows. *)
Fixpoint _get_children_lists (fuel : nat) (self : XMLRobot)
  (parentlist childrenlist : list string) (tt : targettype)
  : outcome (list string * list string) :=
  match fuel with
  | O => Raise RecursionError
  | S fuel' =>
      let childs := flat_map (fun parent => get_children self parent tt)
                             parentlist in
      if Nat.ltb 0 (List.length childs) then
        res <- _get_children_lists fuel' self childs [] link_target ;;
        Return (parentlist ++ fst res, childrenlist ++ childs ++ snd res)
      else Return ([], [])
  end.

(** The three shapes of the value [get_leaves] returns. *)
Inductive leaves : Type :=
| LeavesList (l : list string)
| LeavesNone
| LeavesPartition (parentset childrenset : list string).

(** [set(l)]: duplicates removed (Python leaves the order unspecified). *)
Definition set_of (l : list string) : list string := nodup string_dec l.

(** [XMLRobot.get_leaves(start)]; [not start] holds for [None] and for the
    empty string.  [fuel] is the recursion depth left to
    [_get_children_lists]. *)
Definition get_leaves (fuel : nat) (self : XMLRobot) (start : option string)
  : outcome leaves :=
  let not_start := match start with
                   | None => true
                   | Some s => s =? EmptyString
                   end in
  match start with
  | Some s =>
      if not_start then
        Return (LeavesList
          (filter (fun l => negb (str_in_list l (set_of (dict_keys (child_map self)))))
                  (set_of (dict_keys (parent_map self)))))
      else if negb (dict_mem s (parent_map self)) then Return LeavesNone
      else
        res <- _get_children_lists fuel self [s] [] link_target ;;
        Return (LeavesPartition (set_of (fst res)) (set_of (snd res)))
  | None =>
      Return (LeavesList
        (filter (fun l => negb (str_in_list l (set_of (dict_keys (child_map self)))))
                (set_of (dict_keys (parent_map self)))))
  end.

(** [joint_type != 'fixed']. *)
Definition not_fixed (j : Joint) : bool :=
  match joint_type j with
  | Some t => negb (t =? "fixed")
  | None => true
  end.

(** The [while link != root] loop of [get_chain]. *)
Fixpoint get_chain_loop (fuel : nat) (h : Heap) (self : XMLRobot)
  (root : string) (joints links fixed : bool) (link : string)
  (chain : list string) : outcome (list string) :=
  match fuel with
  | O => OutOfFuel
  | S fuel' =>
      if negb (link =? root) then
        jp <- dict_item (parent_map self) link ;;
        let (joint, parent) := (jp : string * string) in
        chain <- (if joints then
                    if fixed then Return (chain ++ [joint])
                    else
                      j <- dict_item (joint_map self) joint ;;
                      if not_fixed (joint_at h j)
                      then Return (chain ++ [joint]) else Return chain
                  else Return chain) ;;
        let chain := if links then chain ++ [parent] else chain in
        get_chain_loop fuel' h self root joints links fixed parent chain
      else Return chain
  end.

(** [XMLRobot.get_chain(root, tip, joints, links, fixed)]. *)
Definition get_chain (fuel : nat) (h : Heap) (self : XMLRobot)
  (root tip : string) (joints links fixed : bool) : outcome (list string) :=
  let chain := if links then [tip] else [] in
  chain <- get_chain_loop fuel h self root joints links fixed tip chain ;;
  Return (rev chain).

(** The [origin] property of [Joint]: the stored pose, its [relative_to]
    defaulted to the parent link on first read. *)
Definition origin (j : Joint) : outcome Pose :=
  match _origin j with
  | None => Raise AttributeError
  | Some p =>
      Return match relative_to p with
             | None => {| xyz := xyz p; rpy := rpy p;
                          relative_to := Some (parent j) |}
             | Some _ => p
             end
  end.

Section Transformation.
(** The matrices of [utils/transform.py] (not under src/): the type of
    homogeneous transforms, [ndarray.dot] on them and
    [create_transformation(xyz, rpy)]. *)
Variable M : Type.
Variable dot : M -> M -> M.
Variable create_transformation : option (list R) -> option (list R) -> M.

(** The [while link != start] loop of [get_transformation]. *)
Fixpoint get_transformation_loop (fuel : nat) (h : Heap) (self : XMLRobot)
  (start link : string) (transformation : M) : outcome M :=
  match fuel with
  | O => OutOfFuel
  | S fuel' =>
      if negb (link =? start) then
        parents <- get_parent self link joint_target ;;
        match parents with
        | None => Raise Exception
        | Some [] => Raise IndexError
        | Some (p0 :: _) =>
            pjoint <- get_joint h self p0 ;;
            match pjoint with
            | None => Raise AttributeError
            | Some pj =>
                o <- origin (joint_at h pj) ;;
                get_transformation_loop fuel' h self start
                  (parent (joint_at h pj))
                  (dot (create_transformation (xyz o) (rpy o)) transformation)
            end
        end
      else Return transformation
  end.

(** [XMLRobot.get_transformation(end, start)]. *)
Definition get_transformation (fuel : nat) (h : Heap) (self : XMLRobot)
  (end_ : string) (start : option string) : outcome M :=
  start <- match start with
           | None => get_root self
           | Some s => Return s
           end ;;
  get_transformation_loop fuel h self start end_
    (create_transformation (Some [0%R; 0%R; 0%R]) (Some [0%R; 0%R; 0%R])).
End Transformation.

(** ** Pose and its matrix form (representation.py) *)

(** A numpy 2-D array, as the list of its rows. *)
Definition matrix : Type := list (list R).

Definition dotprod (u v : list R) : R :=
  fold_right Rplus 0%R (map (fun ab => (fst ab * snd ab)%R) (combine u v)).

Definition column (j : nat) (A : matrix) : list R :=
  map (fun row => nth j row 0%R) A.

(** [A.dot(B)] on 2-D arrays. *)
Definition mat_dot (A B : matrix) : matrix :=
  map (fun row =>
         map (fun j => dotprod row (column j B))
             (seq 0 (List.length (hd [] B))))
      A.

(** A 4x4 array whose upper-left block is [Rm], whose last column is [p]
    and whose bottom row is [[0,0,0,1]]. *)
Definition homogeneous (Rm : matrix) (p : list R) : matrix :=
  map (fun rp => (fst rp ++ [snd rp])) (combine Rm p)
  ++ [[0%R; 0%R; 0%R; 1%R]].

(** A value passed where Python expects the [dec] argument. *)
Inductive pyval : Type :=
| PyNone
| PyInt (z : Z)
| PyStr (s : string).

Definition pyval_of_frame (f : option string) : pyval :=
  match f with
  | None => PyNone
  | Some s => PyStr s
  end.

Section PoseMatrix.
(** The conversions of [utils/transform.py] (not under src/). *)
Variable rpy_to_matrix : list R -> matrix.
Variable matrix_to_rpy : matrix -> list R.
Variable round_array : list R -> pyval -> outcome (list R).

(** Modelled from the spec: [create_transformation(xyz, rpy)] of
    [utils/transform.py], which is not under src/ -- rotation block from
    the Euler-angle conversion, translation column from [xyz], bottom row
    [[0,0,0,1]]; a missing part counts as zero. *)
Definition create_transformation_model (xyz rpy : option (list R)) : matrix :=
  let zero := [0%R; 0%R; 0%R] in
  homogeneous (rpy_to_matrix (match rpy with Some a => a | None => zero end))
              (match xyz with Some t => t | None => zero end).

(** [Pose.from_matrix(T, dec, relative_to)]; [T[0:3, 3]] needs a fourth
    column. *)
Definition from_matrix (T : matrix) (dec : pyval) (relative_to : option string)
  : outcome Pose :=
  if Nat.ltb (List.length (hd [] T)) 4 then Raise IndexError
  else
    let xyz := column 3 (firstn 3 T) in
    let rpy := matrix_to_rpy (map (firstn 3) (firstn 3 T)) in
    xyz' <- round_array xyz dec ;;
    rpy' <- round_array rpy dec ;;
    Return {| xyz := Some xyz'; rpy := Some rpy'; relative_to := relative_to |}.

(** [Pose.to_matrix()] for a pose that has both [rpy] and [xyz]: an [xyz]
    of one component is broadcast, one that cannot fill the translation
    column makes numpy raise [ValueError].  A pose without [rpy] or [xyz]
    lies outside the model (the conversion of a missing [rpy] is not under
    src/, and numpy stores [nan], which is no real number, for a missing
    [xyz]); the model stops there with [TypeError]. *)
Definition to_matrix (self : Pose) : outcome matrix :=
  match rpy self with
  | None => Raise TypeError
  | Some a =>
      let Rm := rpy_to_matrix a in
      match xyz self with
      | None => Raise TypeError
      | Some [x] => Return (homogeneous Rm [x; x; x])
      | Some [x; y; z] => Return (homogeneous Rm [x; y; z])
      | Some _ => Raise ValueError
      end
  end.

(** [Pose.transform(T)]: the second positional argument of
    [from_matrix] is [dec]. *)
Definition transform (self : Pose) (T : matrix) : outcome Pose :=
  Tm <- to_matrix self ;;
  from_matrix (mat_dot T Tm) (pyval_of_frame (relative_to self)) None.
End PoseMatrix.

(** ** Visual and the shared materials (representation.py) *)

Definition opt_ref_eqb (a b : option ref) : bool :=
  match a, b with
  | Some x, Some y => Nat.eqb x y
  | None, None => true
  | _, _ => false
  end.

(** [Visual.link_with_robot(robot)].  The heap and the robot reached when
    the method returns or raises are both part of the result: a failing
    [assert] does not undo the registration made before it.  (The
    base-class call and the linking of the origin pose only record the
    robot on the entity.) *)
Definition Visual_link_with_robot (self : Visual) (st : Heap * XMLRobot)
  : (Heap * XMLRobot) * outcome unit :=
  match visual_origin self with
  | None => (st, Raise AttributeError)
  | Some _ =>
      match _material self with
      | None => (st, Raise AttributeError)
      | Some m =>
          let robot_material := get_material (fst st) (snd st) (name_at (fst st) m) in
          let added := match robot_material with
                       | None => add_aggregate "material" m st
                       | Some _ => Return st
                       end in
          match added with
          | Return st' =>
              if opt_ref_eqb (Some m)
                   (get_material (fst st') (snd st') (name_at (fst st') m))
              then (st', Return tt)
              else (st', Raise AssertionError)
          | Raise e => (st, Raise e)
          | OutOfFuel => (st, OutOfFuel)
          end
      end
  end.

(** ** Motor (representation.py) *)

Record Motor : Type := {
  motor_name : pyval;
  _joint : option ref;
  returns : list string
}.

(** Modelled from the spec: [SmurfBase.__init__] of [smurf_reflection.py],
    which is not under src/ -- the annotation mixin keeps the keyword
    annotations on the instance it is given.  Reached through the class it
    is a plain function, so the instance is its first positional argument;
    a call without one cannot bind [self]. *)
Definition SmurfBase_init (positional : list ref)
  (kwargs : list (string * pyval)) : outcome (list string) :=
  match positional with
  | [] => Raise TypeError
  | _ :: _ => Return []
  end.

(** [Motor.__init__(name, joint)]: the base initialiser is called with
    keyword arguments only. *)
Definition Motor_init (name joint : pyval) : outcome Motor :=
  returns <- SmurfBase_init [] [("name", name); ("joint", joint); ("link", PyNone)] ;;
  Return {| motor_name := name;
            _joint := None;
            returns := returns ++ ["joint"; "maxEffort"; "maxSpeed";
                                   "maxValue"; "minValue"] |}.

(** The [mimic_*] properties of [Motor]. *)
Definition joint_mimic (h : Heap) (self : Motor) : outcome JointMimic :=
  match _joint self with
  | None => Raise AttributeError
  | Some j =>
      match mimic (joint_at h j) with
      | None => Raise AttributeError
      | Some m => Return m
      end
  end.

Definition mimic_motor (h : Heap) (self : Motor) : outcome string :=
  m <- joint_mimic h self ;; Return (mimic_joint m).

Definition mimic_multiplier (h : Heap) (self : Motor) : outcome R :=
  m <- joint_mimic h self ;; Return (multiplier m).

Definition mimic_offset (h : Heap) (self : Motor) : outcome R :=
  m <- joint_mimic h self ;; Return (offset m).

(** ** Notions used to state the properties *)

(** A link registered in [link_map] that is nobody's child. *)
Definition parentless (self : XMLRobot) (l : string) : Prop :=
  In l (dict_keys (link_map self)) /\ dict_get (parent_map self) l = None.

(** The links among [keys] that are absent from [parent_map]. *)
Definition root_candidates (self : XMLRobot) (keys : list string) : list string :=
  filter (fun l => negb (dict_mem l (parent_map self))) keys.

(** The robot after [add_aggregate("joint", j)]. *)
Definition joint_added (h : Heap) (self : XMLRobot) (j : ref) : XMLRobot :=
  match add_aggregate "joint" j (h, self) with
  | Return st => snd st
  | _ => self
  end.

(** The joints inserted so far, seen through the heap. *)
Definition last_with_child (h : Heap) (inserted : list ref) (c : string)
  : option (string * string) :=
  option_map (fun j => (joint_name (joint_at h j), parent (joint_at h j)))
             (find (fun j => child (joint_at h j) =? c) (rev inserted)).

Definition children_of (h : Heap) (inserted : list ref) (p : string)
  : list (string * string) :=
  map (fun j => (joint_name (joint_at h j), child (joint_at h j)))
      (filter (fun j => parent (joint_at h j) =? p) inserted).

Definition last_with_name (h : Heap) (inserted : list ref) (n : string)
  : option ref :=
  find (fun j => joint_name (joint_at h j) =? n) (rev inserted).

(** The derived indices of [r] are those of the sequence [inserted] of
    joints registered so far: the parent of a link is given by the last
    joint inserted with that child, the children of a link by all the
    joints inserted with that parent, in insertion order. *)
Definition in_sync (h : Heap) (inserted : list ref) (r : XMLRobot) : Prop :=
  (forall c, dict_get (parent_map r) c = last_with_child h inserted c) /\
  (forall p, dict_get (child_map r) p =
             match children_of h inserted p with
             | [] => None
             | e :: l => Some (e :: l)
             end) /\
  (forall n, dict_get (joint_map r) n = last_with_name h inserted n) /\
  (forall j, In j (joints r) <-> In j inserted) /\
  NoDup (joints r).

(** [descends self root l path]: [l] hangs below [root] in [parent_map];
    [path] lists, from the root down to [l], each joint crossed with the
    link it leads to.  Its length is the depth of [l] below [root]. *)
Inductive descends (self : XMLRobot) (root : string)
  : string -> list (string * string) -> Prop :=
| descends_root : descends self root root []
| descends_step : forall p c j path,
    descends self root p path ->
    c <> root ->
    dict_get (parent_map self) c = Some (j, p) ->
    descends self root c (path ++ [(j, c)]).

(** The chain expected from a downward path, for each choice of flags. *)
Definition chain_of (h : Heap) (self : XMLRobot) (joints links fixed : bool)
  (root : string) (path : list (string * string)) : list string :=
  (if links then [root] else []) ++
  flat_map (fun jc =>
    (if joints &&
        (fixed ||
         match dict_get (joint_map self) (fst jc) with
         | Some j => not_fixed (joint_at h j)
         | None => false
         end)
     then [fst jc] else []) ++
    (if links then [snd jc] else [])) path.

(** Every joint of [path] whose type [get_chain] has to read (it does so
    with [joints=True, fixed=False]) is registered in [joint_map]. *)
Definition typed_joints (self : XMLRobot) (joints fixed : bool)
  (path : list (string * string)) : Prop :=
  joints = true -> fixed = false ->
  forall jc, In jc path -> dict_get (joint_map self) (fst jc) <> None.

(** [climbs h self start l top js]: walking up from [l], through the joint
    named by [parent_map] and then to that joint's parent link, reaches
    [top] without meeting [start] on the way; [js] are the joints crossed,
    nearest to [l] first, each with the origin pose read from it. *)
Inductive climbs (h : Heap) (self : XMLRobot) (start : string)
  : string -> string -> list Pose -> Prop :=
| climbs_here : forall l, climbs h self start l l []
| climbs_up : forall l jn p j o top js,
    l <> start ->
    dict_get (parent_map self) l = Some (jn, p) ->
    get_joint h self jn = Return (Some j) ->
    parent (joint_at h j) = p ->
    origin (joint_at h j) = Return o ->
    climbs h self start p top js ->
    climbs h self start l top (o :: js).

Section Composition.
Variable M : Type.
Variable dot : M -> M -> M.
Variable create_transformation : option (list R) -> option (list R) -> M.

(** Left-multiplication of the transforms of [js] onto [T], nearest
    joint first. *)
Definition compose (js : list Pose) (T : M) : M :=
  fold_left (fun T o => dot (create_transformation (xyz o) (rpy o)) T) js T.
End Composition.

(** *** The two-link robot: links [base] and [arm], joint [j1]. *)

Definition base_ref : ref := 0.
Definition arm_ref : ref := 1.
Definition j1_ref : ref := 2.

Definition j1 : Joint :=
  {| joint_name := "j1"; parent := "base"; child := "arm";
     joint_type := Some "revolute";
     _origin := Some {| xyz := Some [1%R; 0%R; 0%R];
                        rpy := Some [0%R; 0%R; 0%R];
                        relative_to := None |};
     mimic := None; motor := None |}.

(** The pose that the [origin] property of [j1] yields. *)
Definition j1_origin : Pose :=
  {| xyz := Some [1%R; 0%R; 0%R]; rpy := Some [0%R; 0%R; 0%R];
     relative_to := Some "base" |}.

Definition two_link_heap : Heap :=
  {| joint_at := fun _ => j1;
     link_at := fun o => if Nat.eqb o base_ref
                         then {| link_name := "base" |}
                         else {| link_name := "arm" |};
     name_at := fun _ => EmptyString |}.

(** [XMLRobot(links=[base, arm], joints=[j1])]. *)
Definition two_link_robot : XMLRobot :=
  {| joints := [j1_ref]; links := [base_ref; arm_ref];
     joint_map := [("j1", j1_ref)];
     link_map := [("base", base_ref); ("arm", arm_ref)];
     parent_map := [("arm", ("j1", "base"))];
     child_map := [("base", [("j1", "arm")])];
     materials := []; transmissions := []; sensors := [] |}.

(** [XMLRobot(links=[base, arm])]: no joint between the two links. *)
Definition disconnected_robot : XMLRobot :=
  {| joints := []; links := [base_ref; arm_ref];
     joint_map := [];
     link_map := [("base", base_ref); ("arm", arm_ref)];
     parent_map := []; child_map := [];
     materials := []; transmissions := []; sensors := [] |}.

(** The 3x3 identity and the pure translation by [[1,0,0]]. *)
Definition identity3 : matrix :=
  [[1%R; 0%R; 0%R]; [0%R; 1%R; 0%R]; [0%R; 0%R; 1%R]].

Definition translation_x1 : matrix :=
  [[1%R; 0%R; 0%R; 1%R]; [0%R; 1%R; 0%R; 0%R];
   [0%R; 0%R; 1%R; 0%R]; [0%R; 0%R; 0%R; 1%R]].

(** Fixed-axis roll-pitch-yaw, [Rz(yaw) Ry(pitch) Rx(roll)]: one
    Euler-angle conversion that the statements below admit. *)
Definition rpy_rotation (a : list R) : matrix :=
  let r := nth 0 a 0%R in
  let p := nth 1 a 0%R in
  let y := nth 2 a 0%R in
  [[(cos y * cos p)%R;
    (cos y * sin p * sin r - sin y * cos r)%R;
    (cos y * sin p * cos r + sin y * sin r)%R];
   [(sin y * cos p)%R;
    (sin y * sin p * sin r + cos y * cos r)%R;
    (sin y * sin p * cos r - cos y * sin r)%R];
   [(- sin p)%R; (cos p * sin r)%R; (cos p * cos r)%R]].

(** *** A robot whose root link has the empty name, joined to [arm]. *)

Definition blank_root_heap : Heap :=
  {| joint_at := fun _ =>
       {| joint_name := "j"; parent := EmptyString; child := "arm";
          joint_type := Some "fixed"; _origin := None;
          mimic := None; motor := None |};
     link_at := fun o => if Nat.eqb o base_ref
                         then {| link_name := EmptyString |}
                         else {| link_name := "arm" |};
     name_at := fun _ => EmptyString |}.

Definition blank_root_robot : XMLRobot :=
  {| joints := [j1_ref]; links := [base_ref; arm_ref];
     joint_map := [("j", j1_ref)];
     link_map := [(EmptyString, base_ref); ("arm", arm_ref)];
     parent_map := [("arm", ("j", EmptyString))];
     child_map := [(EmptyString, [("j", "arm")])];
     materials := []; transmissions := []; sensors := [] |}.

(** The attribute that the generic branch of [add_aggregate] resolves
    [typeName] to, and the number of objects of a collection whose name
    contains the name of [elem]. *)
Definition plural (typeName : string) : string :=
  if endswith typeName "s" then typeName else (typeName ++ "s")%string.

Definition collisions (h : Heap) (elem : ref) (objects : list ref) : nat :=
  List.length
    (filter (fun obj => str_in (name_at h elem) (name_at h obj)) objects).

(** *** Materials: object 10 is named [red_1], object 11 is named [red]. *)

Definition paint_heap : Heap :=
  {| joint_at := fun _ => j1;
     link_at := fun _ => {| link_name := "base" |};
     name_at := fun o => if Nat.eqb o 10 then "red_1" else "red" |}.

(** A robot whose only material is object 10. *)
Definition paint_robot : XMLRobot :=
  {| joints := []; links := []; joint_map := []; link_map := [];
     parent_map := []; child_map := [];
     materials := [10]; transmissions := []; sensors := [] |}.

(** A visual with an origin pose and the material [m]. *)
Definition visual_of (m : ref) : Visual :=
  {| visual_name := None;
     visual_origin := Some {| xyz := None; rpy := None; relative_to := None |};
     _material := Some m |}.

(** *** Poses and motors used in examples *)

Definition identity4 : matrix :=
  [[1%R; 0%R; 0%R; 0%R]; [0%R; 1%R; 0%R; 0%R];
   [0%R; 0%R; 1%R; 0%R]; [0%R; 0%R; 0%R; 1%R]].

(** A rounding that, like numpy's, takes only an integer number of
    decimals; on the idealised reals it keeps the values. *)
Definition integer_dec_round (v : list R) (dec : pyval) : outcome (list R) :=
  match dec with
  | PyInt _ => Return v
  | PyNone | PyStr _ => Raise TypeError
  end.

(** Joint [j2] mimics [j1] with multiplier 2 and offset 0. *)
Definition j2 : Joint :=
  {| joint_name := "j2"; parent := "arm"; child := "hand";
     joint_type := Some "revolute"; _origin := None;
     mimic := Some {| mimic_joint := "j1"; multiplier := 2%R; offset := 0%R |};
     motor := None |}.

Definition mimic_heap : Heap :=
  {| joint_at := fun _ => j2;
     link_at := fun _ => {| link_name := "arm" |};
     name_at := fun _ => EmptyString |}.

(** [built h inserted r]: [r] is indexed by the joints [inserted], whose
    names are pairwise distinct and which all carry an origin pose. *)
Definition built (h : Heap) (inserted : list ref) (r : XMLRobot) : Prop :=
  in_sync h inserted r /\
  NoDup (map (fun j => joint_name (joint_at h j)) inserted) /\
  (forall j, In j inserted -> _origin (joint_at h j) <> None).


(** *** A chain of three links, and two links that are each other's child *)

Definition three_link_robot : XMLRobot :=
  {| joints := [2; 3]; links := [0; 1; 4];
     joint_map := [("j1", 2); ("j2", 3)];
     link_map := [("base", 0); ("arm", 1); ("hand", 4)];
     parent_map := [("arm", ("j1", "base")); ("hand", ("j2", "arm"))];
     child_map := [("base", [("j1", "arm")]); ("arm", [("j2", "hand")])];
     materials := []; transmissions := []; sensors := [] |}.

Definition looped_robot : XMLRobot :=
  {| joints := [2; 3]; links := [0; 1];
     joint_map := [("j1", 2); ("j2", 3)];
     link_map := [("base", 0); ("arm", 1)];
     parent_map := [("arm", ("j1", "base")); ("base", ("j2", "arm"))];
     child_map := [("base", [("j1", "arm")]); ("arm", [("j2", "base")])];
     materials := []; transmissions := []; sensors := [] |}.

(** *** Matrices up to a tolerance *)

(** Componentwise distance at most [e], between vectors and between
    matrices of the same shape. *)
Definition close (e : R) (u v : list R) : Prop :=
  Forall2 (fun x y => (Rabs (x - y) <= e)%R) u v.

Definition mat_close (e : R) (A B : matrix) : Prop :=
  Forall2 (close e) A B.

(** The parts of a 4x4 array that [from_matrix] reads: [T[0:3, 0:3]] and
    [T[0:3, 3]]. *)
Definition rotation_block (T : matrix) : matrix :=
  map (firstn 3) (firstn 3 T).

Definition translation_column (T : matrix) : list R :=
  column 3 (firstn 3 T).

(** A 4x4 array whose bottom row is [[0,0,0,1]]. *)
Definition homogeneous_transform (T : matrix) : Prop :=
  List.length T = 4 /\
  Forall (fun row => List.length row = 4) T /\
  nth 3 T [] = [0%R; 0%R; 0%R; 1%R].

(** The pose that [from_matrix] returns, turned into a matrix again. *)
Definition matrix_round_trip
  (rpy_to_matrix : list R -> matrix) (matrix_to_rpy : matrix -> list R)
  (round_array : list R -> pyval -> outcome (list R))
  (T : matrix) (dec : pyval) (rel : option string) : outcome matrix :=
  p <- from_matrix matrix_to_rpy round_array T dec rel ;;
  to_matrix rpy_to_matrix p.

(** The matrix of a pose, turned into a pose again. *)
Definition pose_round_trip
  (rpy_to_matrix : list R -> matrix) (matrix_to_rpy : matrix -> list R)
  (round_array : list R -> pyval -> outcome (list R))
  (p : Pose) (dec : pyval) : outcome Pose :=
  T <- to_matrix rpy_to_matrix p ;;
  from_matrix matrix_to_rpy round_array T dec (relative_to p).

(** ** Further queries of XMLRobot (xmlrobot.py) *)

(** [XMLRobot.get_link(link_name)] for a name (the diagnostic printed on a
    miss is not modelled). *)
Definition get_link (h : Heap) (self : XMLRobot) (link_name : string)
  : outcome (option ref) :=
  get_instance h self "link" link_name.

(** [XMLRobot.get_sensor(sensor_name)] for a name. *)
Definition get_sensor (h : Heap) (self : XMLRobot) (sensor_name : string)
  : outcome (option ref) :=
  get_instance h self "sensors" sensor_name.

(** The [for i, obj in enumerate(...)] loop of [get_id], started at
    index [i]. *)
Fixpoint first_index (p : ref -> bool) (objs : list ref) (i : nat) : option nat :=
  match objs with
  | [] => None
  | obj :: rest => if p obj then Some i else first_index p rest (S i)
  end.

(** [XMLRobot.get_id(targettype, target)], for the list-valued attributes
    that [getattr_list] knows. *)
Definition get_id (h : Heap) (self : XMLRobot) (targettype target : string)
  : outcome (option nat) :=
  objs <- getattr_list self targettype ;;
  Return (first_index (fun obj => attr_name h targettype obj =? target) objs 0).

(** [XMLRobot.get_joint_id(joint_name)] and [get_link_id(link_name)] for a
    name. *)
Definition get_joint_id (h : Heap) (self : XMLRobot) (joint_name : string)
  : outcome (option nat) :=
  get_id h self "joints" joint_name.

Definition get_link_id (h : Heap) (self : XMLRobot) (link_name : string)
  : outcome (option nat) :=
  get_id h self "links" link_name.

(** The [while parent is not None] loop of [get_link_level]. *)
Fixpoint get_link_level_loop (fuel : nat) (h : Heap) (self : XMLRobot)
  (parents : option (list string)) (level : nat) : outcome nat :=
  match fuel with
  | O => OutOfFuel
  | S fuel' =>
      match parents with
      | None => Return level
      | Some [] => Raise IndexError
      | Some (p0 :: _) =>
          joint <- get_joint h self p0 ;;
          match joint with
          | None => Raise AttributeError
          | Some j =>
              parents' <- get_parent self (parent (joint_at h j)) joint_target ;;
              get_link_level_loop fuel' h self parents' (S level)
          end
      end
  end.

(** [XMLRobot.get_link_level(linkname)]. *)
Definition get_link_level (fuel : nat) (h : Heap) (self : XMLRobot)
  (linkname : string) : outcome nat :=
  parents <- get_parent self linkname joint_target ;;
  get_link_level_loop fuel h self parents 0.

(** [XMLRobot.get_joint_level(jointname)] for a name. *)
Definition get_joint_level (fuel : nat) (h : Heap) (self : XMLRobot)
  (jointname : string) : outcome nat :=
  joint <- get_joint h self jointname ;;
  match joint with
  | None => Raise AttributeError
  | Some j => get_link_level fuel h self (parent (joint_at h j))
  end.

Section GlobalOrigin.
(** [create_transformation], [matrix_to_rpy] and [round_array] of
    [utils/transform.py] (not under src/). *)
Variable create_transformation : option (list R) -> option (list R) -> matrix.
Variable matrix_to_rpy : matrix -> list R.
Variable round_array : list R -> pyval -> outcome (list R).

(** [XMLRobot.global_origin(stop)]. *)
Definition global_origin (fuel : nat) (h : Heap) (self : XMLRobot)
  (stop : string) : outcome Pose :=
  T <- get_transformation mat_dot create_transformation fuel h self stop None ;;
  from_matrix matrix_to_rpy round_array T (PyInt 6) None.
End GlobalOrigin.

(** [s.split(sep)] for a separator of one character. *)
Fixpoint split_on (sep : ascii) (s : string) : list string :=
  match s with
  | EmptyString => [EmptyString]
  | String c s' =>
      if Ascii.eqb c sep then EmptyString :: split_on sep s'
      else match split_on sep s' with
           | [] => [String c EmptyString]
           | w :: ws => String c w :: ws
           end
  end.

Definition SUPPORTED_VERSIONS : list string := ["1.0"].

Section PostReadXml.
(** The builtin [int] on strings. *)
Variable py_int : string -> outcome Z.

(** [XMLRobot.post_read_xml()], from the [version] attribute to the value
    it has when the method returns. *)
Definition post_read_xml (version : option string) : outcome string :=
  let version := match version with
                 | None => "1.0"
                 | Some v => v
                 end in
  let split := split_on "." version in
  if negb (Nat.eqb (List.length split) 2) then Raise ValueError
  else
    let s0 := nth 0 split EmptyString in
    let s1 := nth 1 split EmptyString in
    if (s0 =? EmptyString) || (s1 =? EmptyString) then Raise ValueError
    else
      major <- py_int s0 ;;
      negative <- (if Z.ltb major 0 then Return true
                   else minor <- py_int s1 ;; Return (Z.ltb minor 0)) ;;
      if (negative : bool) then Raise ValueError
      else if negb (str_in_list version SUPPORTED_VERSIONS)
           then Raise ValueError
           else Return version.
End PostReadXml.

(** The child links that [child_map] records for the link [p], in the
    order of insertion; none when [p] is no key. *)
Definition child_links (self : XMLRobot) (p : string) : list string :=
  match dict_get (child_map self) p with
  | Some entries => map snd entries
  | None => []
  end.

(** The links below [start] generation by generation: generation 0 is
    [start] itself, generation [n+1] the child links of generation [n]. *)
Definition generation (self : XMLRobot) (start : list string) (n : nat)
  : list string :=
  Nat.iter n (flat_map (child_links self)) start.

(** Generations [from], [from+1], ..., [from+count-1], one after another. *)
Definition generations (self : XMLRobot) (start : list string)
  (from count : nat) : list string :=
  flat_map (generation self start) (seq from count).

(** The names of the joints and links given to [XMLRobot_init]. *)
Definition link_names (h : Heap) (links : list ref) : list string :=
  map (fun l => link_name (link_at h l)) links.

Definition child_names (h : Heap) (joints : list ref) : list string :=
  map (fun j => child (joint_at h j)) joints.

(** The robot after [add_aggregate("link", l)]. *)
Definition link_added (h : Heap) (self : XMLRobot) (l : ref) : XMLRobot :=
  match add_aggregate "link" l (h, self) with
  | Return st => snd st
  | _ => self
  end.

(** The last of the links [inserted] that carries the name [n]. *)
Definition last_link_named (h : Heap) (inserted : list ref) (n : string)
  : option ref :=
  find (fun l => link_name (link_at h l) =? n) (rev inserted).

(** All four dicts of the robot have pairwise distinct keys. *)
Definition unique_keys (self : XMLRobot) : Prop :=
  NoDup (dict_keys (joint_map self)) /\
  NoDup (dict_keys (link_map self)) /\
  NoDup (dict_keys (parent_map self)) /\
  NoDup (dict_keys (child_map self)).

(** A reading of decimal integer literals: one function with the
    properties that the statements about [post_read_xml] ask of [int]. *)
Definition decimal_int (s : string) : outcome Z :=
  match NilZero.int_of_string s with
  | Some i => Return (Z.of_int i)
  | None => Raise ValueError
  end.

(** ** Further entities (representation.py) *)

(** [Pose.from_vec(vec)]. *)
Definition Pose_from_vec (self : Pose) (vec : list R) : outcome Pose :=
  if negb (Nat.eqb (List.length vec) 6) then Raise AssertionError
  else Return {| xyz := Some (firstn 3 vec);
                 rpy := Some (firstn 3 (skipn 3 vec));
                 relative_to := relative_to self |}.

(** [Pose.__init__(xyz, rpy, vec, extra, relative_to)], the vectors being
    Python lists. *)
Definition Pose_init (xyz rpy vec extra : option (list R))
  (relative_to : option string) : outcome Pose :=
  let self := {| xyz := xyz; rpy := rpy; relative_to := relative_to |} in
  match vec with
  | Some v =>
      if Nat.eqb (List.length v) 3
      then Return {| xyz := Some v; rpy := rpy; relative_to := relative_to |}
      else Pose_from_vec self v
  | None =>
      match extra with
      | Some e =>
          match xyz with
          | Some _ => Raise AssertionError
          | None =>
              if negb (Nat.eqb (List.length e) 3) then Raise AssertionError
              else Return {| xyz := xyz; rpy := Some e;
                             relative_to := relative_to |}
          end
      | None => Return self
      end
  end.

(** [Pose.check_valid()]. *)
Definition Pose_check_valid (self : Pose) : outcome unit :=
  let ok (v : option (list R)) :=
    match v with
    | None => true
    | Some l => Nat.eqb (List.length l) 3
    end in
  if ok (xyz self) && ok (rpy self) then Return tt else Raise AssertionError.

(** The truth value of an optional list: [None] and the empty list are
    false. *)
Definition or_zeros (v : option (list R)) : list R :=
  match v with
  | Some (x :: l) => x :: l
  | Some [] | None => [0%R; 0%R; 0%R]
  end.

(** The [vec] property of [Pose]. *)
Definition Pose_vec (self : Pose) : list R :=
  or_zeros (xyz self) ++ or_zeros (rpy self).

(** Values that reach [Color]: [None], a number, a list or a tuple. *)
#[local] Set Warnings "-register-all".
Inductive pyobj : Type :=
| ONone
| ONum (r : R)
| OList (l : list pyobj)
| OTuple (l : list pyobj).

(** [len(x)]. *)
Definition py_len (x : pyobj) : outcome nat :=
  match x with
  | OList l | OTuple l => Return (List.length l)
  | ONone | ONum _ => Raise TypeError
  end.

(** [x += [1.]]: a list is extended, a tuple cannot be concatenated with
    a list. *)
Definition py_iadd_one (x : pyobj) : outcome pyobj :=
  match x with
  | OList l => Return (OList (l ++ [ONum 1%R]))
  | OTuple _ | ONone | ONum _ => Raise TypeError
  end.

(** [Color.__init__( *args, rgba)]; the result is the [rgba] attribute of
    the new object. *)
Definition Color_init (args : list pyobj) (rgba : pyobj) : outcome pyobj :=
  let count := List.length args in
  let self_rgba :=
    match rgba with
    | ONone =>
        if Nat.eqb count 4 || Nat.eqb count 3 then OTuple args
        else if Nat.eqb count 1 then nth 0 args ONone
        else ONone
    | _ => rgba
    end in
  match self_rgba with
  | ONone => Return ONone
  | _ =>
      n <- py_len self_rgba ;;
      self_rgba <- (if Nat.eqb n 3 then py_iadd_one self_rgba
                    else Return self_rgba) ;;
      n <- py_len self_rgba ;;
      if negb (Nat.eqb n 4) then Raise Exception else Return self_rgba
  end.

Record Inertia : Type := {
  ixx : R; ixy : R; ixz : R; iyy : R; iyz : R; izz : R
}.

Record Inertial : Type := {
  mass : R;
  inertia : option Inertia;
  inertial_origin : option Pose
}.

(** [Inertia.to_matrix()]. *)
Definition Inertia_to_matrix (self : Inertia) : matrix :=
  [[ixx self; ixy self; ixz self];
   [ixy self; iyy self; iyz self];
   [ixz self; iyz self; izz self]].

(** [A[i, j]] on a 2-D array, for indices that are not negative. *)
Definition mat_item (A : matrix) (i j : nat) : outcome R :=
  match nth_error A i with
  | None => Raise IndexError
  | Some row =>
      match nth_error row j with
      | None => Raise IndexError
      | Some x => Return x
      end
  end.

(** [Inertia.from_mass_matrix(M)]. *)
Definition Inertia_from_mass_matrix (M : matrix) : outcome Inertia :=
  let I := map (skipn 3) (skipn 3 M) in
  xx <- mat_item I 0 0 ;;
  xy <- mat_item I 0 1 ;;
  xz <- mat_item I 0 2 ;;
  yy <- mat_item I 1 1 ;;
  yz <- mat_item I 1 2 ;;
  zz <- mat_item I 2 2 ;;
  Return {| ixx := xx; ixy := xy; ixz := xz; iyy := yy; iyz := yz; izz := zz |}.

(** [Inertial.from_mass_matrix(M, origin)]. *)
Definition Inertial_from_mass_matrix (M : matrix) (origin : option Pose)
  : outcome Inertial :=
  m <- mat_item M 0 0 ;;
  I <- Inertia_from_mass_matrix M ;;
  Return {| mass := m; inertia := Some I; inertial_origin := origin |}.

(** [Inertial.to_mass_matrix()]: [np.eye(3) * m] in the upper-left block,
    the inertia tensor in the lower-right block, zeros elsewhere. *)
Definition to_mass_matrix (self : Inertial) : outcome matrix :=
  let m := mass self in
  match inertia self with
  | None => Raise AttributeError
  | Some i =>
      let I := Inertia_to_matrix i in
      let zeros := [0%R; 0%R; 0%R] in
      Return
        (map (fun row => map (fun e => (e * m)%R) row ++ zeros) identity3
         ++ map (fun row => zeros ++ row) I)
  end.

(** The transpose of a 2-D array with [n] columns. *)
Definition transpose (n : nat) (A : matrix) : matrix :=
  map (fun j => column j A) (seq 0 n).

(** ** Links and their visuals and collisions (representation.py) *)

(** The class of an object handed to a link. *)
Inductive geo_class : Type := VisualClass | CollisionClass | OtherClass.

(** The heap of [Visual] and [Collision] objects and of the [Pose] objects
    they hold as origin: class, [name], [origin] (a reference to a pose, or
    [None]) and the [relative_to] of each pose. *)
Record GeoHeap : Type := {
  geo_class_at : ref -> geo_class;
  geo_name_at : ref -> option string;
  geo_origin_at : ref -> option ref;
  frame_at : ref -> option string
}.

Definition set_frame (g : GeoHeap) (o : ref) (f : option string) : GeoHeap :=
  {| geo_class_at := geo_class_at g;
     geo_name_at := geo_name_at g;
     geo_origin_at := geo_origin_at g;
     frame_at := fun o' => if Nat.eqb o' o then f else frame_at g o' |}.

Definition set_geo_name (g : GeoHeap) (geo : ref) (n : option string)
  : GeoHeap :=
  {| geo_class_at := geo_class_at g;
     geo_name_at := fun x => if Nat.eqb x geo then n else geo_name_at g x;
     geo_origin_at := geo_origin_at g;
     frame_at := frame_at g |}.

(** A [Link] object with its two lists. *)
Record LinkObj : Type := {
  lname : option string;
  link_visuals : list ref;
  link_collisions : list ref
}.

(** The loop of [Link.__init__] that defaults [origin.relative_to] to the
    link's name.  The heap reached is returned also when a geometry
    without origin stops the loop. *)
Fixpoint fill_frames (name : option string) (geos : list ref) (g : GeoHeap)
  : GeoHeap * outcome unit :=
  match geos with
  | [] => (g, Return tt)
  | geo :: rest =>
      match geo_origin_at g geo with
      | None => (g, Raise AttributeError)
      | Some o =>
          fill_frames name rest
            match frame_at g o with
            | None => set_frame g o name
            | Some _ => g
            end
      end
  end.

(** The loops of [Link.__init__] that name the unnamed collisions and
    visuals: [self.name + suffix] (the counter [i] of the source stays 0). *)
Fixpoint fill_names (name : option string) (suffix : string)
  (geos : list ref) (g : GeoHeap) : GeoHeap * outcome unit :=
  match geos with
  | [] => (g, Return tt)
  | geo :: rest =>
      match geo_name_at g geo with
      | Some _ => fill_names name suffix rest g
      | None =>
          match name with
          | None => (g, Raise TypeError)
          | Some n =>
              fill_names name suffix rest
                (set_geo_name g geo (Some (n ++ suffix)%string))
          end
      end
  end.

(** [Link.__init__(name, visuals, collisions, origin)]. *)
Definition Link_init (name : option string) (visuals collisions : option (list ref))
  (origin : option Pose) (g : GeoHeap) : GeoHeap * outcome LinkObj :=
  match origin with
  | Some _ => (g, Raise AssertionError)
  | None =>
      let vs := match visuals with Some l => l | None => [] end in
      let cs := match collisions with Some l => l | None => [] end in
      let (g1, r1) := fill_frames name (vs ++ cs) g in
      match r1 with
      | Return _ =>
          let (g2, r2) := fill_names name "_collision" cs g1 in
          match r2 with
          | Return _ =>
              let (g3, r3) := fill_names name "_visual" vs g2 in
              match r3 with
              | Return _ =>
                  (g3, Return {| lname := name; link_visuals := vs;
                                 link_collisions := cs |})
              | Raise e => (g3, Raise e)
              | OutOfFuel => (g3, OutOfFuel)
              end
          | Raise e => (g2, Raise e)
          | OutOfFuel => (g2, OutOfFuel)
          end
      | Raise e => (g1, Raise e)
      | OutOfFuel => (g1, OutOfFuel)
      end
  end.

(** [c.lower()] and [s.lower()] on ASCII text. *)
Definition ascii_lower (c : ascii) : ascii :=
  let n := nat_of_ascii c in
  if Nat.leb 65 n && Nat.leb n 90 then ascii_of_nat (n + 32) else c.

Fixpoint str_lower (s : string) : string :=
  match s with
  | EmptyString => EmptyString
  | String c s' => String (ascii_lower c) (str_lower s')
  end.

(** [Link.add_aggregate(elem_type, elem)]. *)
Definition Link_add_aggregate (g : GeoHeap) (self : LinkObj)
  (elem_type : string) (elem : ref) : LinkObj :=
  let is_visual := match geo_class_at g elem with
                   | VisualClass => true
                   | _ => false
                   end in
  let is_collision := match geo_class_at g elem with
                      | CollisionClass => true
                      | _ => false
                      end in
  if is_visual || (str_lower elem_type =? "visual") then
    {| lname := lname self;
       link_visuals := link_visuals self ++ [elem];
       link_collisions := link_collisions self |}
  else if is_collision || (str_lower elem_type =? "collision") then
    {| lname := lname self;
       link_visuals := link_visuals self;
       link_collisions := link_collisions self ++ [elem] |}
  else self.

(** [l.remove(elem)]: the first occurrence goes; [None] stands for the
    [ValueError] of a missing element. *)
Fixpoint list_remove (elem : ref) (l : list ref) : option (list ref) :=
  match l with
  | [] => None
  | x :: rest =>
      if Nat.eqb x elem then Some rest
      else option_map (cons x) (list_remove elem rest)
  end.

(** [Link.remove_aggregate(elem)]. *)
Definition Link_remove_aggregate (g : GeoHeap) (self : LinkObj) (elem : ref)
  : outcome LinkObj :=
  match geo_class_at g elem with
  | VisualClass =>
      match list_remove elem (link_visuals self) with
      | Some l => Return {| lname := lname self; link_visuals := l;
                            link_collisions := link_collisions self |}
      | None => Raise ValueError
      end
  | CollisionClass =>
      match list_remove elem (link_collisions self) with
      | Some l => Return {| lname := lname self; link_visuals := link_visuals self;
                            link_collisions := l |}
      | None => Raise ValueError
      end
  | OtherClass => Return self
  end.

(** Some geometry of [geos] holds the pose [o] as its origin. *)
Definition origin_among (g : GeoHeap) (geos : list ref) (o : ref) : bool :=
  existsb (fun geo => opt_ref_eqb (geo_origin_at g geo) (Some o)) geos.

(** Geometry heaps used in examples: unnamed visuals with an origin each,
    and a heap in which object 0 is a visual and the others collisions. *)
Definition unnamed_visuals_heap : GeoHeap :=
  {| geo_class_at := fun _ => VisualClass;
     geo_name_at := fun _ => None;
     geo_origin_at := fun x => Some (x + 10);
     frame_at := fun _ => None |}.

Definition mixed_geo_heap : GeoHeap :=
  {| geo_class_at := fun x => if Nat.eqb x 0 then VisualClass
                              else CollisionClass;
     geo_name_at := fun _ => None;
     geo_origin_at := fun _ => None;
     frame_at := fun _ => None |}.

Definition bare_base_link : LinkObj :=
  {| lname := Some "base"; link_visuals := []; link_collisions := [] |}.

(** ** Motor limits (representation.py) *)

Record JointLimit : Type := {
  effort : option R;
  velocity : option R;
  lower : option R;
  upper : option R
}.

(** The [limit] attribute of each joint object. *)
Definition limits : Type := ref -> option JointLimit.

Definition set_limit (lim : limits) (j : ref) (l : JointLimit) : limits :=
  fun j' => if Nat.eqb j' j then Some l else lim j'.

(** The body shared by the four getters [maxEffort], [maxSpeed],
    [minValue] and [maxValue]: the field of the joint's limit, 0 without
    a joint or a limit. *)
Definition limit_field (field : JointLimit -> option R) (lim : limits)
  (self : Motor) : option R :=
  match _joint self with
  | Some j =>
      match lim j with
      | Some l => field l
      | None => Some 0%R
      end
  | None => Some 0%R
  end.

Definition maxEffort : limits -> Motor -> option R := limit_field effort.
Definition maxSpeed : limits -> Motor -> option R := limit_field velocity.
Definition minValue : limits -> Motor -> option R := limit_field lower.
Definition maxValue : limits -> Motor -> option R := limit_field upper.

(** A value assigned to one of the four properties: a [float] or [int],
    or anything else. *)
Inductive assigned : Type :=
| Number (r : R)
| NotNumber.

(** The tail shared by the four setters: the field is written into the
    joint's limit, or a limit is created from the four current values. *)
Definition store_limit (lim : limits) (self : Motor)
  (write : JointLimit -> JointLimit) (fresh : JointLimit) : outcome limits :=
  match _joint self with
  | Some j =>
      match lim j with
      | Some l => Return (set_limit lim j (write l))
      | None => Return (set_limit lim j fresh)
      end
  | None => Raise AttributeError
  end.

(** The setter of [maxEffort]. *)
Definition set_maxEffort (lim : limits) (self : Motor) (effort : assigned)
  : outcome limits :=
  match effort with
  | NotNumber => Return lim
  | Number e =>
      if Rlt_dec 0 e then
        store_limit lim self
          (fun l => {| effort := Some e; velocity := velocity l;
                       lower := lower l; upper := upper l |})
          {| effort := Some e; velocity := maxSpeed lim self;
             lower := minValue lim self; upper := maxValue lim self |}
      else Return lim
  end.

(** The setter of [maxSpeed]. *)
Definition set_maxSpeed (lim : limits) (self : Motor) (speedval : assigned)
  : outcome limits :=
  match speedval with
  | NotNumber => Return lim
  | Number s =>
      if Rlt_dec 0 s then
        store_limit lim self
          (fun l => {| effort := effort l; velocity := Some s;
                       lower := lower l; upper := upper l |})
          {| effort := maxEffort lim self; velocity := Some s;
             lower := minValue lim self; upper := maxValue lim self |}
      else Return lim
  end.

(** The setter of [maxValue]: [maxval >= self.minValue] cannot be
    evaluated against [None]. *)
Definition set_maxValue (lim : limits) (self : Motor) (maxval : assigned)
  : outcome limits :=
  match maxval with
  | NotNumber => Return lim
  | Number v =>
      match minValue lim self with
      | None => Raise TypeError
      | Some lo =>
          if Rge_dec v lo then
            store_limit lim self
              (fun l => {| effort := effort l; velocity := velocity l;
                           lower := lower l; upper := Some v |})
              {| effort := maxEffort lim self; velocity := maxSpeed lim self;
                 lower := minValue lim self; upper := Some v |}
          else Return lim
      end
  end.

(** The setter of [minValue]. *)
Definition set_minValue (lim : limits) (self : Motor) (minval : assigned)
  : outcome limits :=
  match minval with
  | NotNumber => Return lim
  | Number v =>
      match maxValue lim self with
      | None => Raise TypeError
      | Some hi =>
          if Rle_dec v hi then
            store_limit lim self
              (fun l => {| effort := effort l; velocity := velocity l;
                           lower := Some v; upper := upper l |})
              {| effort := maxEffort lim self; velocity := maxSpeed lim self;
                 lower := Some v; upper := maxValue lim self |}
          else Return lim
      end
  end.

(** The range of the motor is in order: both ends are numbers and
    [minValue <= maxValue]. *)
Definition range_ordered (lim : limits) (self : Motor) : Prop :=
  exists lo hi, minValue lim self = Some lo /\ maxValue lim self = Some hi /\
                (lo <= hi)%R.

(** A motor bound to the joint object 0. *)
Definition bound_motor : Motor :=
  {| motor_name := PyStr "m"; _joint := Some 0; returns := [] |}.
(** * Properties *)

(** ** Dicts *)

Section DictFacts.
Context {V : Type}.
Implicit Types (d : dict V) (k : string) (v : V).

Lemma dict_mem_In d k : dict_mem k d = true <-> In k (dict_keys d).
Proof.
  unfold dict_mem, str_in_list. rewrite existsb_exists. split.
  - intros (x & Hx & E). apply String.eqb_eq in E. now subst.
  - intros H. exists k. split; [assumption | apply String.eqb_refl].
Qed.

Lemma dict_get_None d k : dict_get d k = None <-> ~ In k (dict_keys d).
Proof.
  induction d as [|[k' v'] d IH]; simpl.
  - tauto.
  - destruct (String.eqb_spec k' k) as [->|N].
    + split; [discriminate | intros H; exfalso; apply H; now left].
    + rewrite IH. tauto.
Qed.

Lemma dict_mem_get d k : dict_mem k d = false <-> dict_get d k = None.
Proof.
  rewrite dict_get_None, <- dict_mem_In. destruct (dict_mem k d); intuition congruence.
Qed.

Lemma dict_get_set_same d k v : dict_get (dict_set d k v) k = Some v.
Proof.
  induction d as [|[k' v'] d IH]; simpl.
  - now rewrite String.eqb_refl.
  - destruct (String.eqb_spec k' k) as [->|N]; simpl.
    + now rewrite String.eqb_refl.
    + destruct (String.eqb_spec k' k); [contradiction | exact IH].
Qed.

Lemma dict_get_set_other d k k' v :
  k' <> k -> dict_get (dict_set d k v) k' = dict_get d k'.
Proof.
  intros N. induction d as [|[k0 v0] d IH]; simpl.
  - destruct (String.eqb_spec k k'); [congruence | reflexivity].
  - destruct (String.eqb_spec k0 k) as [->|N0]; simpl.
    + destruct (String.eqb_spec k k'); [congruence | reflexivity].
    + destruct (String.eqb_spec k0 k'); [reflexivity | exact IH].
Qed.

Lemma dict_keys_set_In d k v k' :
  In k' (dict_keys (dict_set d k v)) <-> k' = k \/ In k' (dict_keys d).
Proof.
  induction d as [|[k0 v0] d IH]; simpl.
  - intuition.
  - destruct (String.eqb_spec k0 k) as [->|N0]; simpl.
    + intuition.
    + unfold dict_keys in IH. rewrite IH. intuition.
Qed.

Lemma dict_keys_set_NoDup d k v :
  NoDup (dict_keys d) -> NoDup (dict_keys (dict_set d k v)).
Proof.
  induction d as [|[k0 v0] d IH]; simpl; intros H.
  - constructor; [intros [] | constructor].
  - inversion H as [|? ? Hn Hd]; subst.
    destruct (String.eqb_spec k0 k) as [->|N0]; simpl.
    + now constructor.
    + constructor; [| now apply IH].
      intros Hin. apply dict_keys_set_In in Hin. destruct Hin; [congruence | contradiction].
Qed.
End DictFacts.

(** ** The root of the tree *)

Lemma get_root_loop_some self keys r :
  get_root_loop self keys (Some r) =
  match root_candidates self keys with
  | [] => Return (Some r)
  | _ :: _ => Raise AssertionError
  end.
Proof.
  induction keys as [|k keys IH]; simpl; [reflexivity|].
  destruct (negb (dict_mem k (parent_map self))); [reflexivity | exact IH].
Qed.

Lemma get_root_loop_none self keys :
  get_root_loop self keys None =
  match root_candidates self keys with
  | [] => Return None
  | [l] => Return (Some l)
  | _ :: _ :: _ => Raise AssertionError
  end.
Proof.
  induction keys as [|k keys IH]; simpl; [reflexivity|].
  destruct (negb (dict_mem k (parent_map self))); [| exact IH].
  rewrite get_root_loop_some. now destruct (root_candidates self keys).
Qed.

Lemma get_root_candidates self :
  get_root self =
  match root_candidates self (dict_keys (link_map self)) with
  | [l] => Return l
  | _ => Raise AssertionError
  end.
Proof.
  unfold get_root. rewrite get_root_loop_none.
  destruct (root_candidates self (dict_keys (link_map self))) as [|a [|b l]];
    reflexivity.
Qed.

Lemma root_candidates_parentless self l :
  In l (root_candidates self (dict_keys (link_map self))) <-> parentless self l.
Proof.
  unfold root_candidates, parentless. rewrite filter_In, negb_true_iff, dict_mem_get.
  tauto.
Qed.

Lemma NoDup_all_equal (A : Type) (x : A) (l : list A) :
  NoDup l -> In x l -> (forall y, In y l -> y = x) -> l = [x].
Proof.
  intros Hd Hin Hall. destruct l as [|a [|b l]].
  - destruct Hin.
  - f_equal. apply Hall. now left.
  - exfalso. inversion Hd as [|? ? Hn _]; subst. apply Hn.
    rewrite (Hall a), <- (Hall b); simpl; auto.
Qed.

(** C2.  [get_root()] returns the one link of [link_map] that is absent
    from [parent_map]; it raises when there is no such link and when there
    are several, as for two links with no joint between them. *)
Theorem get_root_unique_parentless (self : XMLRobot)
  (Hkeys : NoDup (dict_keys (link_map self))) :
  (forall l, parentless self l ->
             (forall l', parentless self l' -> l' = l) ->
             get_root self = Return l) /\
  ((forall l, ~ parentless self l) -> get_root self = Raise AssertionError) /\
  (forall l l', l <> l' -> parentless self l -> parentless self l' ->
                get_root self = Raise AssertionError) /\
  (XMLRobot_init two_link_heap [] [base_ref; arm_ref]
     = Return (two_link_heap, disconnected_robot) /\
   get_root disconnected_robot = Raise AssertionError).
Proof.
  repeat split.
  - intros l Hl Huniq. rewrite get_root_candidates.
    rewrite (@NoDup_all_equal _ l (root_candidates self (dict_keys (link_map self)))).
    + reflexivity.
    + now apply NoDup_filter.
    + now apply root_candidates_parentless.
    + intros y Hy. apply Huniq. now apply root_candidates_parentless.
  - intros Hnone. rewrite get_root_candidates.
    destruct (root_candidates self (dict_keys (link_map self))) as [|a l] eqn:E;
      [reflexivity|].
    exfalso. apply (Hnone a). apply root_candidates_parentless. rewrite E. now left.
  - intros l l' Hne Hl Hl'. rewrite get_root_candidates.
    apply root_candidates_parentless in Hl, Hl'.
    destruct (root_candidates self (dict_keys (link_map self))) as [|a [|b t]];
      [destruct Hl | | reflexivity].
    exfalso. apply Hne. destruct Hl as [<-|[]]. destruct Hl' as [<-|[]]. reflexivity.
Qed.

Lemma get_root_unique_parentless_witness :
  get_root two_link_robot = Return "base".
Proof.
  assert (Hk : NoDup (dict_keys (link_map two_link_robot))).
  { simpl. repeat constructor; simpl; intuition discriminate. }
  apply (proj1 (get_root_unique_parentless two_link_robot Hk)).
  - split; simpl; auto.
  - intros l' [Hin Hget]. simpl in Hin. destruct Hin as [<-|[<-|[]]].
    + reflexivity.
    + discriminate.
Defined.

(** ** Registration of joints *)

Lemma add_joint_returns h self j :
  add_aggregate "joint" j (h, self) = Return (h, joint_added h self j).
Proof. reflexivity. Qed.

Lemma add_all_app typeName l1 l2 st :
  add_all typeName (l1 ++ l2) st =
  (st' <- add_all typeName l1 st ;; add_all typeName l2 st').
Proof.
  revert st. induction l1 as [|e l1 IH]; intros st; simpl; [reflexivity|].
  destruct (add_aggregate typeName e st); simpl; auto.
Qed.

Lemma obj_in_In elem objs : obj_in elem objs = true <-> In elem objs.
Proof.
  unfold obj_in. rewrite existsb_exists. split.
  - intros (x & Hx & E). apply Nat.eqb_eq in E. now subst.
  - intros H. exists elem. split; [assumption | apply Nat.eqb_refl].
Qed.

Section JointStep.
Variables (h : Heap) (self : XMLRobot) (j : ref).

Lemma joint_added_joint_map k :
  dict_get (joint_map (joint_added h self j)) k =
  if joint_name (joint_at h j) =? k then Some j else dict_get (joint_map self) k.
Proof.
  unfold joint_added; simpl.
  destruct (String.eqb_spec (joint_name (joint_at h j)) k) as [<-|N].
  - apply dict_get_set_same.
  - apply dict_get_set_other. congruence.
Qed.

Lemma joint_added_parent_map c :
  dict_get (parent_map (joint_added h self j)) c =
  if child (joint_at h j) =? c then Some (joint_name (joint_at h j), parent (joint_at h j))
  else dict_get (parent_map self) c.
Proof.
  unfold joint_added; simpl.
  destruct (String.eqb_spec (child (joint_at h j)) c) as [<-|N].
  - apply dict_get_set_same.
  - apply dict_get_set_other. congruence.
Qed.

Lemma joint_added_child_map p :
  dict_get (child_map (joint_added h self j)) p =
  if parent (joint_at h j) =? p
  then Some (match dict_get (child_map self) p with
             | Some l => l
             | None => []
             end ++ [(joint_name (joint_at h j), child (joint_at h j))])
  else dict_get (child_map self) p.
Proof.
  unfold joint_added; simpl.
  destruct (String.eqb_spec (parent (joint_at h j)) p) as [<-|N].
  - destruct (dict_get (child_map self) (parent (joint_at h j)));
      apply dict_get_set_same.
  - destruct (dict_get (child_map self) (parent (joint_at h j)));
      apply dict_get_set_other; congruence.
Qed.

Lemma joint_added_joints :
  joints (joint_added h self j) = if obj_in j (joints self) then joints self
                 else joints self ++ [j].
Proof.
  unfold joint_added; simpl. now destruct (obj_in j (joints self)).
Qed.
End JointStep.

Lemma in_sync_empty h : in_sync h [] empty_robot.
Proof.
  repeat split; simpl; try tauto. constructor.
Qed.

Lemma in_sync_step h inserted r j :
  in_sync h inserted r -> in_sync h (inserted ++ [j]) (joint_added h r j).
Proof.
  intros (Hp & Hc & Hn & Hj & Hd). repeat split.
  - intros c. rewrite joint_added_parent_map, Hp.
    unfold last_with_child. rewrite rev_app_distr. simpl.
    now destruct (child (joint_at h j) =? c).
  - intros p. rewrite joint_added_child_map, Hc.
    unfold children_of. rewrite filter_app, map_app. simpl.
    destruct (parent (joint_at h j) =? p); simpl.
    + now destruct (map _ (filter _ inserted)).
    + now rewrite app_nil_r.
  - intros n. rewrite joint_added_joint_map, Hn.
    unfold last_with_name. rewrite rev_app_distr. simpl.
    now destruct (joint_name (joint_at h j) =? n).
  - rewrite joint_added_joints. intros H.
    destruct (obj_in j (joints r)) eqn:E.
    + apply in_or_app. left. now apply Hj.
    + apply in_app_or in H. apply in_or_app.
      destruct H as [H|H]; [left; now apply Hj | now right].
  - rewrite joint_added_joints. intros H.
    destruct (obj_in j (joints r)) eqn:E.
    + apply in_app_or in H. destruct H as [H|[<-|[]]].
      * now apply Hj.
      * now apply obj_in_In.
    + apply in_or_app. apply in_app_or in H.
      destruct H as [H|H]; [left; now apply Hj | now right].
  - rewrite joint_added_joints. destruct (obj_in j (joints r)) eqn:E; [assumption|].
    apply NoDup_app; [assumption | repeat constructor; intros [] |].
    intros x Hx [<-|[]]. apply obj_in_In in Hx. congruence.
Qed.

Lemma add_all_joints_in_sync h inserted :
  exists r, add_all "joint" inserted (h, empty_robot) = Return (h, r) /\
            in_sync h inserted r.
Proof.
  induction inserted as [|j inserted IH] using rev_ind.
  - exists empty_robot. split; [reflexivity | apply in_sync_empty].
  - destruct IH as (r & Hr & Hs). exists (joint_added h r j). split.
    + rewrite add_all_app, Hr. reflexivity.
    + now apply in_sync_step.
Qed.

(** C3.  [add_aggregate("joint", j)] sets [joint_map[j.name] = j] and
    [parent_map[j.child] = (j.name, j.parent)], appends [(j.name, j.child)]
    to [child_map[j.parent]] and appends [j] to the joint list unless it is
    already there, leaving everything else alone; a later joint with the
    same child overwrites the parent mapping without error; and after any
    sequence of insertions [parent_map] and [child_map] are the indices of
    the joints inserted so far. *)
Theorem add_joint_keeps_indices_in_sync (h : Heap) :
  (forall self j,
     let J := joint_at h j in
     exists self',
       add_aggregate "joint" j (h, self) = Return (h, self') /\
       dict_get (joint_map self') (joint_name J) = Some j /\
       dict_get (parent_map self') (child J) = Some (joint_name J, parent J) /\
       dict_get (child_map self') (parent J) =
         Some (match dict_get (child_map self) (parent J) with
               | Some l => l
               | None => []
               end ++ [(joint_name J, child J)]) /\
       joints self' = (if obj_in j (joints self) then joints self
                       else joints self ++ [j]) /\
       (forall k, k <> joint_name J ->
                  dict_get (joint_map self') k = dict_get (joint_map self) k) /\
       (forall k, k <> child J ->
                  dict_get (parent_map self') k = dict_get (parent_map self) k) /\
       (forall k, k <> parent J ->
                  dict_get (child_map self') k = dict_get (child_map self) k) /\
       links self' = links self /\ link_map self' = link_map self /\
       materials self' = materials self /\
       transmissions self' = transmissions self /\
       sensors self' = sensors self) /\
  (forall self j1 j2,
     child (joint_at h j1) = child (joint_at h j2) ->
     exists self'',
       (st <- add_aggregate "joint" j1 (h, self) ;; add_aggregate "joint" j2 st)
         = Return (h, self'') /\
       dict_get (parent_map self'') (child (joint_at h j1)) =
         Some (joint_name (joint_at h j2), parent (joint_at h j2))) /\
  (forall inserted,
     exists r, add_all "joint" inserted (h, empty_robot) = Return (h, r) /\
               in_sync h inserted r).
Proof.
  split; [|split].
  - intros self j J. exists (joint_added h self j).
    split; [apply add_joint_returns|].
    subst J. repeat split.
    + rewrite joint_added_joint_map. now rewrite String.eqb_refl.
    + rewrite joint_added_parent_map. now rewrite String.eqb_refl.
    + rewrite joint_added_child_map. now rewrite String.eqb_refl.
    + apply joint_added_joints.
    + intros k N. rewrite joint_added_joint_map.
      destruct (String.eqb_spec (joint_name (joint_at h j)) k); congruence.
    + intros k N. rewrite joint_added_parent_map.
      destruct (String.eqb_spec (child (joint_at h j)) k); congruence.
    + intros k N. rewrite joint_added_child_map.
      destruct (String.eqb_spec (parent (joint_at h j)) k); congruence.
  - intros self j1 j2 E. exists (joint_added h (joint_added h self j1) j2).
    split; [reflexivity|].
    rewrite joint_added_parent_map, E. now rewrite String.eqb_refl.
  - apply add_all_joints_in_sync.
Qed.

Lemma add_joint_keeps_indices_in_sync_witness :
  exists self'',
    (st <- add_aggregate "joint" j1_ref (two_link_heap, empty_robot) ;;
     add_aggregate "joint" 3 st) = Return (two_link_heap, self'') /\
    dict_get (parent_map self'') "arm" = Some ("j1", "base").
Proof.
  exact (proj1 (proj2 (add_joint_keeps_indices_in_sync two_link_heap))
           empty_robot j1_ref 3 eq_refl).
Defined.

(** ** Chains *)

Section Chain.
Variables (h : Heap) (self : XMLRobot) (root : string).

Lemma get_chain_loop_descends joints links fixed link path :
  descends self root link path ->
  typed_joints self joints fixed path ->
  forall fuel pre, List.length path < fuel ->
  exists up,
    get_chain_loop fuel h self root joints links fixed link pre
      = Return (pre ++ up) /\
    rev ((if links then [link] else []) ++ up)
      = chain_of h self joints links fixed root path.
Proof.
  induction 1 as [|p c j path Hd IH Hne Hget]; intros Hty fuel pre Hfuel.
  - destruct fuel as [|fuel]; [inversion Hfuel|]. simpl.
    rewrite String.eqb_refl. simpl. exists []. rewrite app_nil_r. split; [reflexivity|].
    unfold chain_of. simpl. rewrite !app_nil_r. now destruct links.
  - destruct fuel as [|fuel]; [inversion Hfuel|].
    rewrite length_app in Hfuel. simpl in Hfuel.
    assert (Hty' : typed_joints self joints fixed path).
    { intros Hj Hf jc Hin. apply Hty; auto. apply in_or_app. now left. }
    simpl. destruct (String.eqb_spec c root) as [|_]; [contradiction|]. simpl.
    unfold dict_item. rewrite Hget. simpl.
    set (jpart := if joints &&
                     (fixed || match dict_get (joint_map self) j with
                               | Some j0 => not_fixed (joint_at h j0)
                               | None => false
                               end)
                  then [j] else []).
    assert (Hj : (if joints then
                    if fixed then Return (pre ++ [j])
                    else j0 <- match dict_get (joint_map self) j with
                               | Some v => Return v
                               | None => Raise KeyError
                               end ;;
                         if not_fixed (joint_at h j0)
                         then Return (pre ++ [j]) else Return pre
                  else Return pre) = Return (pre ++ jpart)).
    { subst jpart. destruct joints; simpl; [|now rewrite app_nil_r].
      destruct fixed; simpl; [reflexivity|].
      destruct (dict_get (joint_map self) j) eqn:E; simpl.
      - destruct (not_fixed (joint_at h r)); [reflexivity | now rewrite app_nil_r].
      - exfalso. apply (Hty eq_refl eq_refl (j, c)); [|exact E].
        apply in_or_app. right. now left. }
    rewrite Hj. simpl.
    destruct (IH Hty' fuel
                (if links then (pre ++ jpart) ++ [p] else pre ++ jpart))
      as (up & Hup & Hrev); [lia|].
    rewrite Hup.
    exists (jpart ++ (if links then [p] else []) ++ up). split.
    + f_equal. destruct links; rewrite <- ?app_assoc; reflexivity.
    + unfold chain_of in *. rewrite flat_map_app. simpl. rewrite app_nil_r.
      rewrite (app_assoc (if links then [root] else []) (flat_map _ path)).
      rewrite <- Hrev. fold jpart.
      assert (Hjr : rev jpart = jpart).
      { subst jpart. now destruct (joints && _). }
      rewrite !rev_app_distr. rewrite Hjr.
      destruct links; simpl; rewrite <- ?app_assoc; reflexivity.
Qed.

Lemma get_chain_loop_return joints links fixed fuel link pre chain :
  get_chain_loop fuel h self root joints links fixed link pre = Return chain ->
  exists path, descends self root link path.
Proof.
  revert link pre. induction fuel as [|fuel IH]; intros link pre; simpl;
    [discriminate|].
  destruct (String.eqb_spec link root) as [->|Hne]; simpl.
  - intros _. exists []. constructor.
  - unfold dict_item.
    destruct (dict_get (parent_map self) link) as [[j p]|] eqn:E; simpl;
      [|discriminate].
    match goal with
    | |- (chain0 <- ?m ;; _) = _ -> _ => destruct m as [c0| |]; simpl;
                                        try discriminate
    end.
    intros Hloop. apply IH in Hloop. destruct Hloop as (path & Hp).
    exists (path ++ [(j, link)]). now apply descends_step with (p := p).
Qed.

Lemma get_chain_loop_raise joints links fixed fuel link pre e :
  get_chain_loop fuel h self root joints links fixed link pre = Raise e ->
  e = KeyError.
Proof.
  revert link pre. induction fuel as [|fuel IH]; intros link pre; simpl;
    [discriminate|].
  destruct (negb (link =? root)); simpl; [|discriminate].
  unfold dict_item.
  destruct (dict_get (parent_map self) link) as [[j p]|]; simpl;
    [|congruence].
  destruct joints; simpl; [|apply IH].
  destruct fixed; simpl; [apply IH|].
  destruct (dict_get (joint_map self) j); simpl; [|congruence].
  destruct (not_fixed (joint_at h r)); simpl; apply IH.
Qed.
End Chain.

Lemma get_chain_descends h self root tip joints links fixed path fuel :
  descends self root tip path ->
  typed_joints self joints fixed path ->
  List.length path < fuel ->
  get_chain fuel h self root tip joints links fixed
    = Return (chain_of h self joints links fixed root path).
Proof.
  intros Hd Hty Hfuel. unfold get_chain.
  destruct (get_chain_loop_descends h links Hd Hty
              (if links then [tip] else []) Hfuel) as (up & Hup & Hrev).
  rewrite Hup. simpl. now rewrite Hrev.
Qed.

Lemma chain_of_last h self root tip joints fixed path :
  descends self root tip path ->
  last (chain_of h self joints true fixed root path) root = tip.
Proof.
  intros Hd. inversion Hd as [|p c j path' Hd' Hne Hget]; subst.
  - reflexivity.
  - unfold chain_of. rewrite flat_map_app. cbn [flat_map fst snd].
    rewrite app_nil_r, !app_assoc. apply last_last.
Qed.

Lemma chain_of_links h self root fixed path :
  chain_of h self false true fixed root path = root :: map snd path.
Proof.
  unfold chain_of. simpl. apply f_equal.
  induction path as [|jc path IH]; simpl; [reflexivity | now rewrite IH].
Qed.

Lemma chain_of_interleaved h self root path :
  chain_of h self true true true root path
  = root :: flat_map (fun jc => [fst jc; snd jc]) path.
Proof. reflexivity. Qed.

(** C5.  When [tip] hangs below [root], [get_chain(root, tip)] returns the
    path in root-to-tip order: it starts with [root], ends with [tip], has
    depth+1 link entries, the joint names interleaved with [joints=True]
    and the fixed joints left out with [fixed=False].  When [tip] is not
    below [root] the call never returns: it raises [KeyError] or loops. *)
Theorem get_chain_root_to_tip (h : Heap) (self : XMLRobot) (root tip : string) :
  (forall path fuel,
     descends self root tip path ->
     List.length path < fuel ->
     (forall joints fixed,
        typed_joints self joints fixed path ->
        exists chain,
          get_chain fuel h self root tip joints true fixed = Return chain /\
          chain = chain_of h self joints true fixed root path /\
          hd_error chain = Some root /\
          last chain root = tip) /\
     (exists chain,
        get_chain fuel h self root tip false true true = Return chain /\
        chain = root :: map snd path /\
        List.length chain = S (List.length path)) /\
     get_chain fuel h self root tip true true true
       = Return (root :: flat_map (fun jc => [fst jc; snd jc]) path)) /\
  ((forall path, ~ descends self root tip path) ->
   forall fuel joints links fixed,
     get_chain fuel h self root tip joints links fixed = Raise KeyError \/
     get_chain fuel h self root tip joints links fixed = OutOfFuel).
Proof.
  split.
  - intros path fuel Hd Hfuel. split; [|split].
    + intros joints fixed Hty.
      exists (chain_of h self joints true fixed root path). repeat split.
      * now apply get_chain_descends.
      * now apply chain_of_last.
    + exists (root :: map snd path). repeat split.
      * rewrite <- (chain_of_links h self root true path).
        apply get_chain_descends; auto. intros Hj. discriminate.
      * simpl. now rewrite length_map.
    + rewrite <- (chain_of_interleaved h self root path).
      apply get_chain_descends; auto. intros _ Hf. discriminate.
  - intros Hnone fuel joints links fixed. unfold get_chain.
    destruct (get_chain_loop fuel h self root joints links fixed tip
                (if links then [tip] else [])) as [chain|e|] eqn:E; simpl.
    + exfalso. apply get_chain_loop_return in E. destruct E as (path & Hp).
      exact (Hnone path Hp).
    + left. apply get_chain_loop_raise in E. now subst.
    + now right.
Qed.

Lemma get_chain_root_to_tip_witness :
  get_chain 2 two_link_heap two_link_robot "base" "arm" true true true
  = Return ["base"; "j1"; "arm"].
Proof.
  assert (Hd : descends two_link_robot "base" "arm" ([] ++ [("j1", "arm")])).
  { apply descends_step with (p := "base");
      [constructor | discriminate | reflexivity]. }
  apply (proj2 (proj2 (proj1 (get_chain_root_to_tip two_link_heap two_link_robot
                                "base" "arm") _ 2 Hd ltac:(simpl; lia)))).
Defined.

(** ** Composition of transforms *)

Lemma get_parent_joint self l jn p :
  dict_get (parent_map self) l = Some (jn, p) ->
  get_parent self l joint_target = Return (Some [jn]).
Proof.
  intros Hget. unfold get_parent, dict_item.
  destruct (dict_mem l (parent_map self)) eqn:E.
  - now rewrite Hget.
  - apply dict_mem_get in E. congruence.
Qed.

Lemma get_parent_orphan self l :
  dict_get (parent_map self) l = None ->
  get_parent self l joint_target =
  if dict_mem l (child_map self) then Return None else Raise AssertionError.
Proof.
  intros Hget. unfold get_parent. apply dict_mem_get in Hget. now rewrite Hget.
Qed.

Section Compose.
Variable M : Type.
Variable dot : M -> M -> M.
Variable create_transformation : option (list R) -> option (list R) -> M.
Variables (h : Heap) (self : XMLRobot) (start : string).

Lemma get_transformation_loop_climbs l top js :
  climbs h self start l top js ->
  forall fuel T,
    List.length js < fuel ->
    get_transformation_loop dot create_transformation fuel h self start l T
    = if top =? start
      then Return (compose dot create_transformation js T)
      else match dict_get (parent_map self) top with
           | None => if dict_mem top (child_map self)
                     then Raise Exception else Raise AssertionError
           | Some _ =>
               get_transformation_loop dot create_transformation
                 (fuel - List.length js) h self start top
                 (compose dot create_transformation js T)
           end.
Proof.
  induction 1 as [l | l jn p j o top js Hne Hget Hj Hp Ho Hc IH];
    intros fuel T Hfuel.
  - destruct fuel as [|fuel]; [inversion Hfuel|]. simpl.
    destruct (String.eqb_spec l start) as [->|N]; simpl; [reflexivity|].
    destruct (dict_get (parent_map self) l) as [[jn p]|] eqn:E.
    + rewrite (get_parent_joint _ _ E). reflexivity.
    + rewrite (get_parent_orphan _ _ E).
      now destruct (dict_mem l (child_map self)).
  - destruct fuel as [|fuel]; [inversion Hfuel|]. simpl in Hfuel.
    cbn [get_transformation_loop].
    destruct (String.eqb_spec l start) as [|_]; [contradiction|].
    cbn [negb]. rewrite (get_parent_joint _ _ Hget). cbn [bind].
    rewrite Hj. cbn [bind]. rewrite Ho. cbn [bind]. rewrite Hp.
    rewrite IH by lia. reflexivity.
Qed.
End Compose.

Lemma get_joint_find h self jn :
  get_joint h self jn =
  Return (find (fun obj => joint_name (joint_at h obj) =? jn) (joints self)).
Proof. reflexivity. Qed.

Lemma NoDup_map_injective (A B : Type) (f : A -> B) (l : list A) x y :
  NoDup (map f l) -> In x l -> In y l -> f x = f y -> x = y.
Proof.
  induction l as [|a l IH]; simpl; intros Hd Hx Hy E; [destruct Hx|].
  inversion Hd as [|? ? Hn Hd']; subst.
  destruct Hx as [->|Hx], Hy as [->|Hy]; auto.
  - exfalso. apply Hn. rewrite E. now apply in_map.
  - exfalso. apply Hn. rewrite <- E. now apply in_map.
Qed.

Lemma built_joint_lookup h inserted r c jn p :
  built h inserted r ->
  dict_get (parent_map r) c = Some (jn, p) ->
  exists j o,
    get_joint h r jn = Return (Some j) /\
    parent (joint_at h j) = p /\
    child (joint_at h j) = c /\
    origin (joint_at h j) = Return o.
Proof.
  intros ((Hp & _ & _ & Hj & _) & Hnames & Horigins) Hget.
  rewrite Hp in Hget. unfold last_with_child in Hget.
  destruct (find _ (rev inserted)) as [j|] eqn:F; [|discriminate].
  apply find_some in F. destruct F as (Hin & Hc).
  apply in_rev in Hin. apply String.eqb_eq in Hc.
  simpl in Hget. inversion Hget; subst. clear Hget.
  assert (Ho : exists o, origin (joint_at h j) = Return o).
  { unfold origin. specialize (Horigins j Hin).
    destruct (_origin (joint_at h j)); [eexists; reflexivity | contradiction]. }
  destruct Ho as (o & Ho). exists j, o. repeat split; auto.
  rewrite get_joint_find.
  destruct (find _ (joints r)) as [j'|] eqn:G.
  - apply find_some in G. destruct G as (Hin' & Hn). apply String.eqb_eq in Hn.
    apply Hj in Hin'.
    now rewrite (NoDup_map_injective _ _ j' j Hnames Hin' Hin Hn).
  - exfalso. apply Hj in Hin. apply (find_none _ _ G) in Hin.
    now rewrite String.eqb_refl in Hin.
Qed.

Lemma climbs_of_descends h inserted r start l path :
  built h inserted r ->
  descends r start l path ->
  exists js, climbs h r start l start js /\ List.length js = List.length path.
Proof.
  intros Hb Hd. induction Hd as [|p c j path Hd IH Hne Hget].
  - exists []. split; [constructor | reflexivity].
  - destruct IH as (js & Hc & Hlen).
    destruct (@built_joint_lookup h inserted r c j p Hb Hget) as (jr & o & Hj & Hp & _ & Ho).
    exists (o :: js). split.
    + now apply climbs_up with (jn := j) (p := p) (j := jr).
    + rewrite length_app. simpl. lia.
Qed.

Lemma two_link_transformation rpy_to_matrix :
  rpy_to_matrix [0%R; 0%R; 0%R] = identity3 ->
  get_transformation mat_dot (create_transformation_model rpy_to_matrix)
    2 two_link_heap two_link_robot "arm" None
  = Return translation_x1.
Proof.
  intros Hzero.
  unfold get_transformation, create_transformation_model.
  cbn -[mat_dot homogeneous]. rewrite Hzero.
  unfold mat_dot, homogeneous, identity3, translation_x1, column, dotprod.
  cbn [map combine app fst snd seq hd List.length nth fold_right].
  repeat (f_equal; try ring).
Qed.

(** C1.  [get_transformation(end, start)] multiplies the joint-origin
    transforms met while walking from [end] up to [start], each one on the
    left of what has been accumulated ([T = T_parentJoint . T]), and raises
    when the walk reaches a link without a parent other than [start]; with
    no [start] the root is used.  For the robot [base --j1--> arm] with
    origin [xyz=[1,0,0], rpy=[0,0,0]], [get_transformation("arm")] is the
    translation by [[1,0,0]] with identity rotation, whatever Euler-angle
    conversion sends zero angles to the identity. *)
Theorem get_transformation_composes :
  (forall (M : Type) (dot : M -> M -> M)
          (create_transformation : option (list R) -> option (list R) -> M)
          (h : Heap) (self : XMLRobot) (start end_ : string),
     let zero := Some [0%R; 0%R; 0%R] in
     (forall js fuel,
        climbs h self start end_ start js ->
        List.length js < fuel ->
        get_transformation dot create_transformation fuel h self end_ (Some start)
          = Return (compose dot create_transformation js
                            (create_transformation zero zero)) /\
        (get_root self = Return start ->
         get_transformation dot create_transformation fuel h self end_ None
           = Return (compose dot create_transformation js
                             (create_transformation zero zero)))) /\
     (forall top js fuel,
        climbs h self start end_ top js ->
        top <> start ->
        dict_get (parent_map self) top = None ->
        List.length js < fuel ->
        get_transformation dot create_transformation fuel h self end_ (Some start)
          = Raise (if dict_mem top (child_map self)
                   then Exception else AssertionError)) /\
     (forall inserted path fuel,
        built h inserted self ->
        descends self start end_ path ->
        List.length path < fuel ->
        exists js,
          List.length js = List.length path /\
          climbs h self start end_ start js /\
          get_transformation dot create_transformation fuel h self end_
                             (Some start)
            = Return (compose dot create_transformation js
                              (create_transformation zero zero)))) /\
  (XMLRobot_init two_link_heap [j1_ref] [base_ref; arm_ref]
     = Return (two_link_heap, two_link_robot) /\
   forall rpy_to_matrix,
     rpy_to_matrix [0%R; 0%R; 0%R] = identity3 ->
     get_transformation mat_dot (create_transformation_model rpy_to_matrix)
       2 two_link_heap two_link_robot "arm" None
     = Return translation_x1).
Proof.
  split.
  - intros M dot ct h self start end_ zero.
    assert (Hwalk : forall js fuel,
               climbs h self start end_ start js ->
               List.length js < fuel ->
               get_transformation dot ct fuel h self end_ (Some start)
               = Return (compose dot ct js (ct zero zero))).
    { intros js fuel Hc Hfuel. unfold get_transformation. cbn [bind].
      rewrite (get_transformation_loop_climbs dot ct Hc _ Hfuel).
      now rewrite String.eqb_refl. }
    split; [|split].
    + intros js fuel Hc Hfuel.
      assert (E : get_transformation dot ct fuel h self end_ (Some start)
                  = Return (compose dot ct js (ct zero zero))).
      { unfold get_transformation. cbn [bind].
        rewrite (get_transformation_loop_climbs dot ct Hc _ Hfuel).
        now rewrite String.eqb_refl. }
      split; [exact E|].
      intros Hroot. unfold get_transformation in *. rewrite Hroot. exact E.
    + intros top js fuel Hc Hne Hget Hfuel.
      unfold get_transformation. cbn [bind].
      rewrite (get_transformation_loop_climbs dot ct Hc _ Hfuel).
      destruct (String.eqb_spec top start) as [|_]; [contradiction|].
      rewrite Hget. now destruct (dict_mem top (child_map self)).
    + intros inserted path fuel Hb Hd Hfuel.
      destruct (@climbs_of_descends h inserted self start end_ path Hb Hd) as (js & Hc & Hlen).
      exists js. repeat split; auto. apply Hwalk; [exact Hc | lia].
  - split; [reflexivity | apply two_link_transformation].
Qed.

Lemma rpy_rotation_zero : rpy_rotation [0%R; 0%R; 0%R] = identity3.
Proof.
  unfold rpy_rotation, identity3. cbn [nth].
  rewrite cos_0, sin_0. repeat (f_equal; try ring).
Qed.

Lemma two_link_built : built two_link_heap [j1_ref] two_link_robot.
Proof.
  split; [|split].
  - split; [|split; [|split; [|split]]].
    + intros c. unfold last_with_child. cbn -[String.eqb].
      now destruct ("arm" =? c).
    + intros p. unfold children_of. cbn -[String.eqb].
      now destruct ("base" =? p).
    + intros n. unfold last_with_name. cbn -[String.eqb].
      now destruct ("j1" =? n).
    + intros j. reflexivity.
    + simpl. repeat constructor. intros [].
  - simpl. repeat constructor. intros [].
  - intros j _. discriminate.
Qed.

Lemma get_transformation_composes_witness :
  get_transformation mat_dot (create_transformation_model rpy_rotation)
    2 two_link_heap two_link_robot "arm" (Some "base")
  = Return (mat_dot
              (create_transformation_model rpy_rotation
                 (Some [1%R; 0%R; 0%R]) (Some [0%R; 0%R; 0%R]))
              (create_transformation_model rpy_rotation
                 (Some [0%R; 0%R; 0%R]) (Some [0%R; 0%R; 0%R]))) /\
  (exists js,
     List.length js = 1 /\
     climbs two_link_heap two_link_robot "base" "arm" "base" js /\
     get_transformation mat_dot (create_transformation_model rpy_rotation)
       2 two_link_heap two_link_robot "arm" (Some "base")
     = Return (compose mat_dot (create_transformation_model rpy_rotation) js
                 (create_transformation_model rpy_rotation
                    (Some [0%R; 0%R; 0%R]) (Some [0%R; 0%R; 0%R])))) /\
  get_transformation mat_dot (create_transformation_model rpy_rotation)
    2 two_link_heap two_link_robot "arm" None
  = Return translation_x1.
Proof.
  split; [|split].
  - refine (proj1 (proj1 (proj1 get_transformation_composes _ mat_dot
                      (create_transformation_model rpy_rotation)
                      two_link_heap two_link_robot "base" "arm")
                    [j1_origin] 2 _ _)).
    + apply climbs_up with (jn := "j1") (p := "base") (j := j1_ref);
        [discriminate | reflexivity | reflexivity | reflexivity | reflexivity
        | constructor].
    + simpl. lia.
  - refine (proj2 (proj2 (proj1 get_transformation_composes _ mat_dot
                     (create_transformation_model rpy_rotation)
                     two_link_heap two_link_robot "base" "arm"))
              [j1_ref] ([] ++ [("j1", "arm")]) 2 two_link_built _ _).
    + apply descends_step with (p := "base");
        [constructor | discriminate | reflexivity].
    + simpl. lia.
  - exact (proj2 (proj2 get_transformation_composes)
             rpy_rotation rpy_rotation_zero).
Defined.

(** ** Leaves *)

Lemma set_of_In x l : In x (set_of l) <-> In x l.
Proof. apply nodup_In. Qed.

Lemma str_in_list_In x l : str_in_list x l = true <-> In x l.
Proof.
  unfold str_in_list. rewrite existsb_exists. split.
  - intros (y & Hy & E). apply String.eqb_eq in E. now subst.
  - intros H. exists x. split; [assumption | apply String.eqb_refl].
Qed.

(** C10.  For a non-empty name [start] that is not a key of [parent_map]
    -- the root link is one -- [get_leaves(start)] returns [None]; a call
    with a non-empty [start] never returns the list of leaves; the call
    without [start] and the call with the empty name return the links that
    are the child of some link and the parent of none. *)
Theorem get_leaves_none_for_non_child (self : XMLRobot) :
  (forall fuel start,
     start <> EmptyString ->
     dict_get (parent_map self) start = None ->
     get_leaves fuel self (Some start) = Return LeavesNone) /\
  (forall fuel start l,
     start <> EmptyString ->
     get_leaves fuel self (Some start) <> Return (LeavesList l)) /\
  (forall fuel,
     exists l,
       get_leaves fuel self None = Return (LeavesList l) /\
       get_leaves fuel self (Some EmptyString) = Return (LeavesList l) /\
       forall x, In x l <->
                 In x (dict_keys (parent_map self)) /\
                 ~ In x (dict_keys (child_map self))).
Proof.
  split; [|split].
  - intros fuel start Hne Hget. unfold get_leaves.
    destruct (String.eqb_spec start EmptyString) as [|_]; [contradiction|].
    apply dict_mem_get in Hget. now rewrite Hget.
  - intros fuel start l Hne. unfold get_leaves.
    destruct (String.eqb_spec start EmptyString) as [|_]; [contradiction|].
    destruct (negb (dict_mem start (parent_map self))); [discriminate|].
    destruct (_get_children_lists fuel self [start] [] link_target);
      discriminate.
  - intros fuel. eexists. split; [reflexivity|]. split; [reflexivity|].
    intros x. rewrite filter_In, negb_true_iff, set_of_In.
    rewrite <- not_true_iff_false, str_in_list_In, set_of_In. tauto.
Qed.

Lemma get_leaves_none_for_non_child_witness :
  get_leaves 1 two_link_robot (Some "base") = Return LeavesNone.
Proof.
  apply (proj1 (get_leaves_none_for_non_child two_link_robot));
    [discriminate | reflexivity].
Defined.

Lemma get_leaves_blank_root_counterexample :
  XMLRobot_init blank_root_heap [j1_ref] [base_ref; arm_ref]
    = Return (blank_root_heap, blank_root_robot) /\
  get_root blank_root_robot = Return EmptyString /\
  dict_get (parent_map blank_root_robot) EmptyString = None /\
  get_leaves 1 blank_root_robot (Some EmptyString) = Return (LeavesList ["arm"]) /\
  ~ (forall self fuel start,
       dict_get (parent_map self) start = None ->
       get_leaves fuel self (Some start) = Return LeavesNone).
Proof.
  repeat split.
  intros H. specialize (H blank_root_robot 1 EmptyString eq_refl). discriminate H.
Qed.

(** ** The generic collections *)

Lemma prefix_app a b :
  prefix a b = true <-> exists post, b = (a ++ post)%string.
Proof.
  revert b. induction a as [|c a IH]; intros b; simpl.
  - split; [intros _; now exists b | now destruct b].
  - destruct b as [|c' b]; simpl.
    + split; [discriminate | intros (post & E); discriminate].
    + destruct (Ascii.ascii_dec c c') as [->|N].
      * rewrite IH. split; intros (post & E); exists post; congruence.
      * split; [discriminate | intros (post & E); congruence].
Qed.

(** [str_in] decides the substring relation. *)
Lemma str_in_substring a b :
  str_in a b = true <-> exists pre post, b = (pre ++ a ++ post)%string.
Proof.
  induction b as [|c b IH]; cbn [str_in]; rewrite orb_true_iff.
  - rewrite prefix_app. split.
    + intros [(post & E)|H]; [|discriminate]. now exists EmptyString, post.
    + intros (pre & post & E). left. destruct pre as [|c pre]; [|discriminate].
      now exists post.
  - rewrite prefix_app, IH. split.
    + intros [(post & E)|(pre & post & E)].
      * now exists EmptyString, post.
      * exists (String c pre), post. simpl. now rewrite E.
    + intros (pre & post & E). destruct pre as [|c' pre]; simpl in E.
      * left. now exists post.
      * right. exists pre, post. congruence.
Qed.

Lemma getattr_setattr self attr objs l :
  getattr_list self attr = Return objs ->
  getattr_list (setattr_list self attr l) attr = Return l.
Proof.
  unfold getattr_list, setattr_list.
  cbn [joints links materials transmissions sensors].
  destruct (attr =? "joints"); [reflexivity|].
  destruct (attr =? "links"); [reflexivity|].
  destruct (attr =? "materials"); [reflexivity|].
  destruct (attr =? "transmissions"); [reflexivity|].
  destruct (attr =? "sensors"); [reflexivity|].
  destruct (str_in_list attr method_names); discriminate.
Qed.

Lemma collisions_zero h elem objects :
  collisions h elem objects = 0 <->
  forall obj, In obj objects -> str_in (name_at h elem) (name_at h obj) = false.
Proof.
  unfold collisions. induction objects as [|o objects IH]; simpl.
  - split; [intros _ obj [] | reflexivity].
  - destruct (str_in (name_at h elem) (name_at h o)) eqn:E; simpl.
    + split; [discriminate|]. intros H. specialize (H o (or_introl eq_refl)).
      congruence.
    + rewrite IH. split.
      * intros H obj [<-|Hin]; auto.
      * intros H obj Hin. apply H. now right.
Qed.

Lemma add_aggregate_generic h self typeName elem objects :
  ~ In typeName ["joint"; "joints"; "link"; "links"] ->
  getattr_list self (plural typeName) = Return objects ->
  add_aggregate typeName elem (h, self) =
  Return (match collisions h elem objects with
          | O => h
          | S _ => set_name h elem
                     (name_at h elem ++ "_"
                      ++ format_nat (collisions h elem objects))%string
          end,
          setattr_list self (plural typeName) (objects ++ [elem])).
Proof.
  intros Hkind Hget. unfold add_aggregate.
  assert (E1 : str_in_list typeName ["joint"; "joints"] = false).
  { apply not_true_iff_false. rewrite str_in_list_In. simpl in *. tauto. }
  assert (E2 : str_in_list typeName ["link"; "links"] = false).
  { apply not_true_iff_false. rewrite str_in_list_In. simpl in *. tauto. }
  rewrite E1, E2.
  replace (if negb (endswith typeName "s")
           then (typeName ++ "s")%string else typeName)
    with (plural typeName)
    by (unfold plural; now destruct (endswith typeName "s")).
  rewrite Hget. cbn [bind]. unfold colliding, collisions.
  rewrite length_map.
  now destruct (filter _ objects).
Qed.

(** C8.  For a kind other than link or joint, [add_aggregate] appends the
    element to the collection of that kind; when the collection holds
    objects whose name contains the element's name as a substring, the
    element is first renamed to its name followed by [_] and the number of
    those objects, and otherwise it keeps its name. *)
Theorem add_aggregate_suffixes_colliding_name
  (h : Heap) (self : XMLRobot) (typeName : string) (elem : ref)
  (objects : list ref) :
  ~ In typeName ["joint"; "joints"; "link"; "links"] ->
  getattr_list self (plural typeName) = Return objects ->
  exists h' self',
    add_aggregate typeName elem (h, self) = Return (h', self') /\
    getattr_list self' (plural typeName) = Return (objects ++ [elem]) /\
    (forall o, o <> elem -> name_at h' o = name_at h o) /\
    ((exists obj pre post,
        In obj objects /\
        name_at h obj = (pre ++ name_at h elem ++ post)%string) ->
     0 < collisions h elem objects /\
     name_at h' elem =
       (name_at h elem ++ "_" ++ format_nat (collisions h elem objects))%string) /\
    ((forall obj pre post,
        In obj objects ->
        name_at h obj <> (pre ++ name_at h elem ++ post)%string) ->
     name_at h' elem = name_at h elem) /\
    joint_map self' = joint_map self /\ link_map self' = link_map self /\
    parent_map self' = parent_map self /\ child_map self' = child_map self.
Proof.
  intros Hkind Hget.
  exists (match collisions h elem objects with
          | O => h
          | S _ => set_name h elem
                     (name_at h elem ++ "_"
                      ++ format_nat (collisions h elem objects))%string
          end),
         (setattr_list self (plural typeName) (objects ++ [elem])).
  split; [now apply add_aggregate_generic|].
  split; [now apply getattr_setattr with (objs := objects)|].
  split; [|split; [|split]].
  - intros o Hne. destruct (collisions h elem objects); [reflexivity|].
    simpl. destruct (Nat.eqb_spec o elem); [contradiction | reflexivity].
  - intros (obj & pre & post & Hin & Hname).
    assert (Hpos : collisions h elem objects <> 0).
    { rewrite collisions_zero. intros H. specialize (H obj Hin).
      apply not_true_iff_false in H. apply H. apply str_in_substring.
      now exists pre, post. }
    split; [lia|].
    destruct (collisions h elem objects) as [|n]; [contradiction|].
    simpl. now rewrite Nat.eqb_refl.
  - intros Hnone.
    assert (Hz : collisions h elem objects = 0).
    { apply collisions_zero. intros obj Hin. apply not_true_iff_false.
      rewrite str_in_substring. intros (pre & post & E).
      exact (Hnone obj pre post Hin E). }
    now rewrite Hz.
  - repeat split.
Qed.

Lemma add_aggregate_suffixes_colliding_name_witness :
  exists h' self',
    add_aggregate "material" 11 (paint_heap, paint_robot) = Return (h', self') /\
    getattr_list self' "materials" = Return [10; 11] /\
    name_at h' 11 = "red_1".
Proof.
  assert (Hkind : ~ In "material" ["joint"; "joints"; "link"; "links"]).
  { simpl. intuition discriminate. }
  destruct (add_aggregate_suffixes_colliding_name paint_heap paint_robot
              (typeName := "material") 11 (objects := [10]) Hkind eq_refl)
    as (h' & self' & Hadd & Hget & _ & Hren & _).
  exists h', self'. split; [exact Hadd|]. split; [exact Hget|].
  apply Hren. exists 10, EmptyString, "_1". split; [now left | reflexivity].
Defined.

(** ** Materials shared between visuals *)

Lemma find_app (A : Type) (f : A -> bool) (l l' : list A) :
  find f (l ++ l') = match find f l with
                     | Some x => Some x
                     | None => find f l'
                     end.
Proof.
  induction l as [|a l IH]; simpl; [reflexivity|]. now destruct (f a).
Qed.

Lemma get_material_registered h self m :
  In m (materials self) -> get_material h self (name_at h m) <> None.
Proof.
  intros Hin Hnone. unfold get_material in Hnone.
  apply (find_none _ _ Hnone) in Hin. now rewrite String.eqb_refl in Hin.
Qed.

Lemma get_material_unregistered h self m :
  get_material h self (name_at h m) = None -> ~ In m (materials self).
Proof.
  intros Hnone Hin. now apply (get_material_registered h self m).
Qed.

Lemma add_material h self m :
  add_aggregate "material" m (h, self) =
  Return (match collisions h m (materials self) with
          | O => h
          | S _ => set_name h m
                     (name_at h m ++ "_"
                      ++ format_nat (collisions h m (materials self)))%string
          end,
          setattr_list self "materials" (materials self ++ [m])).
Proof.
  apply (add_aggregate_generic h self (typeName := "material") m
           (objects := materials self)); [|reflexivity].
  simpl. intuition discriminate.
Qed.

Lemma opt_ref_eqb_eq a b : opt_ref_eqb a b = true <-> a = b.
Proof.
  destruct a as [x|], b as [y|]; simpl; try (split; congruence).
  rewrite Nat.eqb_eq. split; congruence.
Qed.

Lemma link_registered_keeps_state h self v o m :
  visual_origin v = Some o ->
  _material v = Some m ->
  get_material h self (name_at h m) <> None ->
  fst (Visual_link_with_robot v (h, self)) = (h, self).
Proof.
  intros Ho Hm Hreg. unfold Visual_link_with_robot. rewrite Ho, Hm. simpl.
  destruct (get_material h self (name_at h m)) as [a|] eqn:E; [|contradiction].
  simpl. rewrite E. now destruct (Nat.eqb m a).
Qed.

(** C7.  Linking a visual whose material's name is not yet known to the
    robot appends the material object to [robot.materials]; linking a
    second visual that holds the same object registers nothing more, so
    the object is listed once; and when the name is already held by
    another object the link fails on the identity assertion and changes
    nothing. *)
Theorem visual_material_registered_once
  (h : Heap) (self : XMLRobot) (v : Visual) (o : Pose) (m : ref) :
  visual_origin v = Some o ->
  _material v = Some m ->
  (get_material h self (name_at h m) = None ->
   exists h' self' out,
     Visual_link_with_robot v (h, self) = ((h', self'), out) /\
     materials self' = materials self ++ [m] /\
     count_occ Nat.eq_dec (materials self') m = 1 /\
     (out = Return tt \/ out = Raise AssertionError) /\
     (collisions h m (materials self) = 0 -> out = Return tt /\ h' = h) /\
     (forall v2 o2,
        visual_origin v2 = Some o2 ->
        _material v2 = Some m ->
        fst (Visual_link_with_robot v2 (h', self')) = (h', self'))) /\
  (forall a,
     get_material h self (name_at h m) = Some a ->
     a <> m ->
     Visual_link_with_robot v (h, self) = ((h, self), Raise AssertionError)) /\
  (get_material h self (name_at h m) = Some m ->
   Visual_link_with_robot v (h, self) = ((h, self), Return tt)).
Proof.
  intros Ho Hm. split; [|split].
  - intros Hnone.
    pose (h1 := match collisions h m (materials self) with
                | O => h
                | S _ => set_name h m
                           (name_at h m ++ "_"
                            ++ format_nat (collisions h m (materials self)))%string
                end).
    pose (self1 := setattr_list self "materials" (materials self ++ [m])).
    exists h1, self1,
      (if opt_ref_eqb (Some m) (get_material h1 self1 (name_at h1 m))
       then Return tt else Raise AssertionError).
    assert (Hmats : materials self1 = materials self ++ [m]) by reflexivity.
    split; [|split; [|split; [|split; [|split]]]].
    + unfold Visual_link_with_robot. rewrite Ho, Hm. cbn [fst snd].
      rewrite Hnone, add_material. fold h1 self1. cbn [fst snd].
      now destruct (opt_ref_eqb _ _).
    + exact Hmats.
    + assert (Hc : @count_occ ref Nat.eq_dec (materials self) m = 0).
      { apply count_occ_not_In. now apply (get_material_unregistered h). }
      rewrite Hmats, count_occ_app, Hc.
      simpl. now destruct (Nat.eq_dec m m).
    + destruct (opt_ref_eqb _ _); auto.
    + intros Hz. subst h1. rewrite Hz. split; [|reflexivity].
      unfold get_material in *. rewrite Hmats, find_app, Hnone. simpl.
      now rewrite String.eqb_refl, Nat.eqb_refl.
    + intros v2 o2 Ho2 Hm2. apply link_registered_keeps_state with (o := o2) (m := m);
        auto.
      apply get_material_registered. rewrite Hmats. apply in_or_app. right. now left.
  - intros a Ha Hne. unfold Visual_link_with_robot. rewrite Ho, Hm. cbn [fst snd].
    rewrite Ha. cbn [fst snd]. rewrite Ha. simpl.
    destruct (Nat.eqb_spec m a); [congruence | reflexivity].
  - intros Ha. unfold Visual_link_with_robot. rewrite Ho, Hm. cbn [fst snd].
    rewrite Ha. cbn [fst snd]. rewrite Ha. simpl. now rewrite Nat.eqb_refl.
Qed.

Lemma visual_material_registered_once_witness :
  Visual_link_with_robot (visual_of 10) (paint_heap, empty_robot)
    = ((paint_heap,
        setattr_list empty_robot "materials" [10]), Return tt) /\
  Visual_link_with_robot (visual_of 11) (paint_heap, paint_robot)
    = ((set_name paint_heap 11 "red_1",
        setattr_list paint_robot "materials" [10; 11]),
       Raise AssertionError) /\
  Visual_link_with_robot (visual_of 12)
      (paint_heap, setattr_list paint_robot "materials" [11])
    = ((paint_heap, setattr_list paint_robot "materials" [11]),
       Raise AssertionError).
Proof.
  split; [|split].
  - destruct (proj1 (visual_material_registered_once paint_heap empty_robot
                       (visual_of 10) (m := 10) eq_refl eq_refl) eq_refl)
      as (h' & self' & out & Hlink & _ & _ & _ & Hclean & _).
    reflexivity.
  - reflexivity.
  - apply (proj1 (proj2 (visual_material_registered_once paint_heap
                           (setattr_list paint_robot "materials" [11])
                           (visual_of 12) (m := 12) eq_refl eq_refl)) 11);
      [reflexivity | discriminate].
Defined.

(** ** Pose.transform *)

Lemma j1_origin_to_matrix rpy_to_matrix :
  to_matrix rpy_to_matrix j1_origin
  = Return (homogeneous (rpy_to_matrix [0%R; 0%R; 0%R]) [1%R; 0%R; 0%R]).
Proof. reflexivity. Qed.

(** C6.  What [Pose.transform(T)] computes: the pose's matrix is
    left-multiplied by [T] and decomposed again by [from_matrix], but the
    frame name [relative_to] of the pose arrives in the [dec] parameter of
    [from_matrix], so it is the frame name, not the default of 6 decimals,
    that reaches [round_array], and the resulting pose has no frame.  For
    the pose [xyz=[1,0,0], rpy=[0,0,0]] relative to [base] and the identity
    matrix, [round_array] is called with [dec="base"]. *)
Theorem transform_takes_frame_as_dec
  (rpy_to_matrix : list R -> matrix) (matrix_to_rpy : matrix -> list R)
  (round_array : list R -> pyval -> outcome (list R)) :
  (forall (p : Pose) (T Tm : matrix),
     to_matrix rpy_to_matrix p = Return Tm ->
     transform rpy_to_matrix matrix_to_rpy round_array p T
     = from_matrix matrix_to_rpy round_array (mat_dot T Tm)
         (pyval_of_frame (relative_to p)) None) /\
  (rpy_to_matrix [0%R; 0%R; 0%R] = identity3 ->
   transform rpy_to_matrix matrix_to_rpy round_array j1_origin identity4
   = (xyz' <- round_array [1%R; 0%R; 0%R] (PyStr "base") ;;
      rpy' <- round_array (matrix_to_rpy identity3) (PyStr "base") ;;
      Return {| xyz := Some xyz'; rpy := Some rpy'; relative_to := None |})).
Proof.
  split.
  - intros p T Tm Hm. unfold transform. now rewrite Hm.
  - intros Hzero. unfold transform. rewrite j1_origin_to_matrix, Hzero.
    cbn [bind]. unfold from_matrix.
    assert (Hdot : mat_dot identity4 (homogeneous identity3 [1%R; 0%R; 0%R])
                   = translation_x1).
    { unfold mat_dot, homogeneous, identity3, identity4, translation_x1,
        column, dotprod.
      cbn [map combine app fst snd seq hd List.length nth fold_right].
      repeat (f_equal; try ring). }
    rewrite Hdot. reflexivity.
Qed.

Lemma transform_takes_frame_as_dec_witness :
  transform rpy_rotation (fun _ => [0%R; 0%R; 0%R]) integer_dec_round
    j1_origin identity4 = Raise TypeError /\
  from_matrix (fun _ => [0%R; 0%R; 0%R]) integer_dec_round
    translation_x1 (PyInt 6) None
  = Return {| xyz := Some [1%R; 0%R; 0%R]; rpy := Some [0%R; 0%R; 0%R];
              relative_to := None |}.
Proof.
  split.
  - rewrite (proj2 (transform_takes_frame_as_dec rpy_rotation
                      (fun _ => [0%R; 0%R; 0%R]) integer_dec_round)
               rpy_rotation_zero).
    reflexivity.
  - reflexivity.
Defined.

(** ** Pose.from_matrix and Pose.to_matrix *)

Lemma Rabs_le_zero_eq (x y : R) : (Rabs (x - y) <= 0)%R -> x = y.
Proof.
  intros H. destruct (Req_dec x y) as [E|N]; [exact E|].
  apply Rminus_eq_contra, Rabs_pos_lt in N. lra.
Qed.

Lemma Rabs_diag_le (x e : R) : (0 <= e)%R -> (Rabs (x - x) <= e)%R.
Proof.
  intros H. replace (x - x)%R with 0%R by ring. now rewrite Rabs_R0.
Qed.

Lemma close_zero_eq (u v : list R) : close 0 u v -> u = v.
Proof.
  intros H. induction H as [|x y u v Hxy _ IH]; [reflexivity|].
  now rewrite (Rabs_le_zero_eq _ _ Hxy), IH.
Qed.

Lemma mat_close_refl (e : R) (A : matrix) : (0 <= e)%R -> mat_close e A A.
Proof.
  intros He. induction A as [|row A IH]; constructor; [|exact IH].
  induction row as [|x row IHrow]; constructor; [|exact IHrow].
  now apply Rabs_diag_le.
Qed.

Lemma homogeneous_transform_shape (T : matrix) :
  homogeneous_transform T ->
  exists a0 a1 a2 a3 b0 b1 b2 b3 c0 c1 c2 c3,
    T = [[a0; a1; a2; a3]; [b0; b1; b2; b3]; [c0; c1; c2; c3];
         [0%R; 0%R; 0%R; 1%R]].
Proof.
  intros (Hrows & Hcols & Hbottom).
  destruct T as [|r0 [|r1 [|r2 [|r3 [|r4 T]]]]]; try discriminate.
  cbn [nth] in Hbottom. subst r3.
  inversion Hcols as [|? ? H0 Hc1]; subst.
  inversion Hc1 as [|? ? H1 Hc2]; subst.
  inversion Hc2 as [|? ? H2 _]; subst.
  destruct r0 as [|a0 [|a1 [|a2 [|a3 [|a4 r0]]]]]; try discriminate.
  destruct r1 as [|b0 [|b1 [|b2 [|b3 [|b4 r1]]]]]; try discriminate.
  destruct r2 as [|c0 [|c1 [|c2 [|c3 [|c4 r2]]]]]; try discriminate.
  now exists a0, a1, a2, a3, b0, b1, b2, b3, c0, c1, c2, c3.
Qed.

Ltac invert_close :=
  repeat match goal with
         | H : Forall2 _ (_ :: _) _ |- _ => inversion H; subst; clear H
         | H : Forall2 _ [] _ |- _ => inversion H; subst; clear H
         end.

(** C4.  For a 4x4 array [T] with bottom row [[0,0,0,1]] whose rotation
    block the Euler-angle conversions reproduce (as they do for a proper
    rotation), [Pose.from_matrix(T, dec).to_matrix()] returns a matrix
    that equals [T] up to the rounding: when rounding to [dec] decimals
    moves no component by more than [eps], and angles that differ by at
    most [eps] give rotations that differ by at most [delta], every entry
    of the result lies within [max(eps, delta)] of that of [T], and the
    result is [T] itself when the rounding changes nothing.  The other
    direction is not guaranteed: of two poses with the same position whose
    different angles describe the same rotation, at most one comes back
    from [from_matrix(p.to_matrix())]. *)
Theorem from_matrix_to_matrix_round_trip
  (rpy_to_matrix : list R -> matrix) (matrix_to_rpy : matrix -> list R)
  (round_array : list R -> pyval -> outcome (list R))
  (dec : pyval) (eps delta : R) :
  (forall v, exists v', round_array v dec = Return v' /\ close eps v v') ->
  (forall a b, close eps a b ->
               mat_close delta (rpy_to_matrix a) (rpy_to_matrix b)) ->
  (forall T rel,
     homogeneous_transform T ->
     rpy_to_matrix (matrix_to_rpy (rotation_block T)) = rotation_block T ->
     exists T',
       matrix_round_trip rpy_to_matrix matrix_to_rpy round_array T dec rel
       = Return T' /\
       mat_close (Rmax eps delta) T T' /\
       (eps = 0%R -> delta = 0%R -> T' = T)) /\
  (forall t a b rel,
     rpy_to_matrix a = rpy_to_matrix b ->
     a <> b ->
     ~ (pose_round_trip rpy_to_matrix matrix_to_rpy round_array
          {| xyz := Some t; rpy := Some a; relative_to := rel |} dec
        = Return {| xyz := Some t; rpy := Some a; relative_to := rel |} /\
        pose_round_trip rpy_to_matrix matrix_to_rpy round_array
          {| xyz := Some t; rpy := Some b; relative_to := rel |} dec
        = Return {| xyz := Some t; rpy := Some b; relative_to := rel |})).
Proof.
  intros Hround Hlip. split.
  - intros T rel Hhom Hinv.
    destruct (homogeneous_transform_shape Hhom)
      as (a0 & a1 & a2 & a3 & b0 & b1 & b2 & b3 & c0 & c1 & c2 & c3 & ->).
    unfold matrix_round_trip, from_matrix.
    unfold rotation_block in Hinv.
    cbn [hd List.length Nat.ltb Nat.leb firstn map column nth] in *.
    destruct (Hround [a3; b3; c3]) as (t' & Ht & Hct).
    destruct (Hround (matrix_to_rpy [[a0; a1; a2]; [b0; b1; b2]; [c0; c1; c2]]))
      as (a' & Ha & Hca).
    rewrite Ht, Ha. cbn [bind].
    apply Hlip in Hca. rewrite Hinv in Hca.
    unfold to_matrix. cbn [xyz rpy].
    remember (rpy_to_matrix a') as M' eqn:EM.
    unfold mat_close, close in Hca, Hct. invert_close.
    cbn [homogeneous combine map app fst snd].
    assert (He : (0 <= eps)%R).
    { match goal with
      | H : (Rabs (a3 - _) <= eps)%R |- _ =>
          exact (Rle_trans _ _ _ (Rabs_pos _) H)
      end. }
    assert (Hm : (0 <= Rmax eps delta)%R)
      by exact (Rle_trans _ _ _ He (Rmax_l eps delta)).
    eexists. split; [reflexivity|]. split.
    + unfold mat_close, close.
      repeat first [apply Forall2_cons | apply Forall2_nil];
        first [ now apply Rabs_diag_le
              | eapply Rle_trans; [eassumption | apply Rmax_r]
              | eapply Rle_trans; [eassumption | apply Rmax_l] ].
    + intros -> ->.
      repeat match goal with
             | H : (Rabs (_ - _) <= 0)%R |- _ =>
                 apply Rabs_le_zero_eq in H
             end.
      subst. reflexivity.
  - intros t a b rel Hab Hne (Hp & Hq).
    unfold pose_round_trip, to_matrix in Hp, Hq.
    cbn [xyz rpy relative_to] in Hp, Hq.
    rewrite Hab in Hp. rewrite Hp in Hq.
    apply Hne. now inversion Hq.
Qed.

Lemma from_matrix_to_matrix_round_trip_witness :
  matrix_round_trip rpy_rotation (fun _ => [0%R; 0%R; 0%R]) integer_dec_round
    translation_x1 (PyInt 6) None
  = Return translation_x1 /\
  ~ (pose_round_trip rpy_rotation (fun _ => [0%R; 0%R; 0%R]) integer_dec_round
       {| xyz := Some [1%R; 0%R; 0%R]; rpy := Some [0%R; 0%R; 0%R];
          relative_to := None |} (PyInt 6)
     = Return {| xyz := Some [1%R; 0%R; 0%R]; rpy := Some [0%R; 0%R; 0%R];
                 relative_to := None |} /\
     pose_round_trip rpy_rotation (fun _ => [0%R; 0%R; 0%R]) integer_dec_round
       {| xyz := Some [1%R; 0%R; 0%R]; rpy := Some [(2 * PI)%R; 0%R; 0%R];
          relative_to := None |} (PyInt 6)
     = Return {| xyz := Some [1%R; 0%R; 0%R];
                 rpy := Some [(2 * PI)%R; 0%R; 0%R];
                 relative_to := None |}).
Proof.
  assert (Hround : forall v, exists v',
             integer_dec_round v (PyInt 6) = Return v' /\ close 0 v v').
  { intros v. exists v. split; [reflexivity|].
    induction v; [apply Forall2_nil | apply Forall2_cons];
      [apply Rabs_diag_le; lra | assumption]. }
  assert (Hlip : forall a b, close 0 a b ->
                             mat_close 0 (rpy_rotation a) (rpy_rotation b)).
  { intros a b Hab. rewrite (close_zero_eq Hab). apply mat_close_refl. lra. }
  destruct (@from_matrix_to_matrix_round_trip rpy_rotation
              (fun _ => [0%R; 0%R; 0%R]) integer_dec_round
              (PyInt 6) 0%R 0%R Hround Hlip) as (Hthere & Hback).
  split.
  - destruct (Hthere translation_x1 None) as (T' & Hrt & _ & Heq).
    + repeat split. repeat constructor.
    + exact rpy_rotation_zero.
    + rewrite Hrt. f_equal. now apply Heq.
  - apply Hback.
    + unfold rpy_rotation. cbn [nth].
      now rewrite cos_2PI, sin_2PI, cos_0, sin_0.
    + intros E. inversion E as [H]. pose proof PI_RGT_0. lra.
Defined.

(** ** Motor *)

(** C9.  [Motor.__init__] calls the base initialiser without passing the
    instance, so no [Motor] is ever constructed: the call raises
    [TypeError] for every name and joint.  The [mimic_*] properties
    themselves read the mimic of the joint the motor is bound to: for the
    mimic [{joint: j1, multiplier: 2, offset: 0}] they yield [j1], 2 and
    0. *)
Theorem Motor_init_raises :
  (forall name joint, Motor_init name joint = Raise TypeError) /\
  (forall (h : Heap) (self : Motor) (j : ref),
     _joint self = Some j ->
     mimic (joint_at h j)
       = Some {| mimic_joint := "j1"; multiplier := 2%R; offset := 0%R |} ->
     mimic_motor h self = Return "j1" /\
     mimic_multiplier h self = Return 2%R /\
     mimic_offset h self = Return 0%R).
Proof.
  split.
  - reflexivity.
  - intros h self j Hj Hm.
    unfold mimic_motor, mimic_multiplier, mimic_offset, joint_mimic.
    rewrite Hj, Hm. repeat split.
Qed.

Lemma Motor_init_raises_witness :
  Motor_init (PyStr "m") (PyStr "j2") = Raise TypeError /\
  mimic_multiplier mimic_heap
    {| motor_name := PyStr "m"; _joint := Some 0; returns := [] |}
  = Return 2%R.
Proof.
  split.
  - exact (proj1 Motor_init_raises (PyStr "m") (PyStr "j2")).
  - exact (proj1 (proj2 (proj2 Motor_init_raises mimic_heap
                           {| motor_name := PyStr "m"; _joint := Some 0;
                              returns := [] |} 0 eq_refl eq_refl))).
Defined.

(** * Further properties *)

(** ** Registration of links and the constructor *)

Lemma add_link_returns h self l :
  add_aggregate "link" l (h, self) = Return (h, link_added h self l).
Proof. reflexivity. Qed.

Lemma link_added_link_map h self l n :
  dict_get (link_map (link_added h self l)) n =
  if link_name (link_at h l) =? n then Some l else dict_get (link_map self) n.
Proof.
  unfold link_added; simpl.
  destruct (String.eqb_spec (link_name (link_at h l)) n) as [<-|N].
  - apply dict_get_set_same.
  - apply dict_get_set_other. congruence.
Qed.

Lemma link_added_links h self l :
  links (link_added h self l) =
  if obj_in l (links self) then links self else links self ++ [l].
Proof.
  unfold link_added; simpl. now destruct (obj_in l (links self)).
Qed.

Lemma link_added_links_In h self l x :
  In x (links (link_added h self l)) <-> In x (links self) \/ x = l.
Proof.
  rewrite link_added_links. destruct (obj_in l (links self)) eqn:E.
  - apply obj_in_In in E. split; [auto | intros [H| ->]; auto].
  - rewrite in_app_iff. simpl. intuition.
Qed.

Lemma link_added_links_NoDup h self l :
  NoDup (links self) -> NoDup (links (link_added h self l)).
Proof.
  intros Hd. rewrite link_added_links. destruct (obj_in l (links self)) eqn:E;
    [assumption|].
  apply NoDup_app; [assumption | repeat constructor; intros [] |].
  intros x Hx [<-|[]]. apply obj_in_In in Hx. congruence.
Qed.

(** X1.  Inserting a sequence of links registers each one under its name,
    the last link of a name winning; the link list gains every inserted
    object exactly once; the joints and the three joint indices are not
    touched; distinct keys stay distinct. *)
Theorem add_links_register_by_name (h : Heap) (inserted : list ref) :
  forall self,
  exists self',
    add_all "link" inserted (h, self) = Return (h, self') /\
    (forall n, dict_get (link_map self') n =
               match last_link_named h inserted n with
               | Some l => Some l
               | None => dict_get (link_map self) n
               end) /\
    (forall l, In l (links self') <-> In l (links self) \/ In l inserted) /\
    (NoDup (links self) -> NoDup (links self')) /\
    (NoDup (dict_keys (link_map self)) -> NoDup (dict_keys (link_map self'))) /\
    joints self' = joints self /\ joint_map self' = joint_map self /\
    parent_map self' = parent_map self /\ child_map self' = child_map self /\
    materials self' = materials self.
Proof.
  induction inserted as [|l inserted IH]; intros self.
  - exists self. simpl. repeat split; auto. intros [H|[]]; exact H.
  - destruct (IH (link_added h self l))
      as (self' & Hadd & Hmap & Hin & Hnd & Hkeys & Hj & Hjm & Hpm & Hcm & Hm).
    exists self'. split; [|split; [|split; [|split; [|split]]]].
    + cbn [add_all]. rewrite add_link_returns. exact Hadd.
    + intros n. rewrite Hmap, link_added_link_map.
      unfold last_link_named. cbn [rev]. rewrite find_app. cbn [find].
      destruct (find _ (rev inserted)); [reflexivity|].
      now destruct (link_name (link_at h l) =? n).
    + intros x. rewrite Hin, link_added_links_In. simpl. intuition.
    + intros Hd. apply Hnd. now apply link_added_links_NoDup.
    + intros Hd. apply Hkeys. unfold link_added; simpl.
      now apply dict_keys_set_NoDup.
    + rewrite Hj, Hjm, Hpm, Hcm, Hm. repeat split.
Qed.

Lemma joint_added_unique_keys h self j :
  unique_keys self -> unique_keys (joint_added h self j).
Proof.
  intros (Hjm & Hlm & Hpm & Hcm). unfold unique_keys, joint_added; simpl.
  repeat split; try assumption; try now apply dict_keys_set_NoDup.
  destruct (dict_get (child_map self) (parent (joint_at h j)));
    now apply dict_keys_set_NoDup.
Qed.

Lemma add_all_joints_unique_keys h inserted :
  forall self, unique_keys self ->
  exists self', add_all "joint" inserted (h, self) = Return (h, self') /\
                unique_keys self'.
Proof.
  induction inserted as [|j inserted IH]; intros self Hu.
  - exists self. split; [reflexivity | assumption].
  - destruct (IH (joint_added h self j)) as (self' & Hadd & Hu');
      [now apply joint_added_unique_keys|].
    exists self'. split; [|assumption].
    cbn [add_all]. rewrite add_joint_returns. exact Hadd.
Qed.

Lemma in_sync_parent_keys h inserted r c :
  in_sync h inserted r ->
  dict_get (parent_map r) c = None <-> ~ In c (child_names h inserted).
Proof.
  intros (Hp & _). rewrite Hp. unfold last_with_child, child_names. split.
  - intros Hnone Hin. apply in_map_iff in Hin. destruct Hin as (j & Hc & Hin).
    destruct (find _ (rev inserted)) eqn:F; [discriminate|].
    apply in_rev in Hin. apply (find_none _ _ F) in Hin.
    rewrite Hc, String.eqb_refl in Hin. discriminate.
  - intros Hnot. destruct (find _ (rev inserted)) as [j|] eqn:F; [|reflexivity].
    exfalso. apply find_some in F. destruct F as (Hin & Hc).
    apply Hnot. apply String.eqb_eq in Hc. rewrite <- Hc.
    apply (in_map (fun j => child (joint_at h j))). now apply in_rev.
Qed.

Lemma dict_In_get (V : Type) (d : dict V) k :
  In k (dict_keys d) <-> dict_get d k <> None.
Proof.
  rewrite <- dict_mem_In, <- (dict_mem_get d k).
  destruct (dict_mem k d); split; congruence.
Qed.

Lemma add_all_joints_link_map h js :
  forall s r0, add_all "joint" js (h, s) = Return (h, r0) ->
               link_map r0 = link_map s.
Proof.
  induction js as [|j js IH]; intros s r0 H.
  - now inversion H.
  - cbn [add_all] in H. rewrite add_joint_returns in H. cbn [bind] in H.
    now rewrite (IH _ _ H).
Qed.

Lemma last_link_named_In h inserted n :
  last_link_named h inserted n <> None <-> In n (link_names h inserted).
Proof.
  unfold last_link_named, link_names. split.
  - destruct (find _ (rev inserted)) as [l|] eqn:F; [|congruence]. intros _.
    apply find_some in F. destruct F as (Hin & Hn). apply String.eqb_eq in Hn.
    rewrite <- Hn. apply (in_map (fun l => link_name (link_at h l))).
    now apply in_rev.
  - intros Hin Hnone. apply in_map_iff in Hin. destruct Hin as (l & Hn & Hin).
    apply in_rev in Hin. apply (find_none _ _ Hnone) in Hin.
    rewrite Hn, String.eqb_refl in Hin. discriminate.
Qed.

(** X2.  The robot that the constructor builds from joints and links: its
    dicts have distinct keys, its parentless links are the names of the
    given links that are the child of no given joint, and [get_root()]
    returns [R] exactly when [R] is the only such name; in every other
    case it raises [AssertionError]. *)
Theorem constructed_robot_root (h : Heap) (js ls : list ref) :
  exists r,
    XMLRobot_init h js ls = Return (h, r) /\
    unique_keys r /\
    (forall l, parentless r l <->
               In l (link_names h ls) /\ ~ In l (child_names h js)) /\
    (forall R, get_root r = Return R <->
               (In R (link_names h ls) /\ ~ In R (child_names h js)) /\
               (forall l, In l (link_names h ls) ->
                          ~ In l (child_names h js) -> l = R)) /\
    (forall e, get_root r = Raise e -> e = AssertionError) /\
    get_root r <> OutOfFuel.
Proof.
  destruct (add_all_joints_in_sync h js) as (r0 & Hjs & Hsync).
  destruct (add_all_joints_unique_keys h js (self := empty_robot))
    as (r0' & Hjs' & Hu).
  { repeat split; constructor. }
  rewrite Hjs in Hjs'. inversion Hjs'; subst r0'. clear Hjs'.
  destruct (add_links_register_by_name h ls r0)
    as (r & Hls & Hmap & _ & _ & Hkeys & _ & Hjm & Hpm & Hcm & _).
  exists r.
  assert (Hunique : unique_keys r).
  { destruct Hu as (H1 & H2 & H3 & H4). unfold unique_keys.
    rewrite Hjm, Hpm, Hcm. auto. }
  assert (Hpl : forall l, parentless r l <->
                          In l (link_names h ls) /\ ~ In l (child_names h js)).
  { intros l. unfold parentless. rewrite Hpm.
    rewrite (in_sync_parent_keys l Hsync), <- last_link_named_In.
    assert (Hk : In l (dict_keys (link_map r)) <-> last_link_named h ls l <> None).
    { rewrite dict_In_get, Hmap, (add_all_joints_link_map _ _ Hjs). simpl.
      destruct (last_link_named h ls l); split; congruence. }
    rewrite Hk. tauto. }
  split; [|split; [|split; [|split; [|split]]]].
  - unfold XMLRobot_init. rewrite Hjs. exact Hls.
  - exact Hunique.
  - exact Hpl.
  - intros R. rewrite get_root_candidates. split.
    + intros Hroot.
      destruct (root_candidates r (dict_keys (link_map r))) as [|a [|b t]] eqn:E;
        try discriminate.
      inversion Hroot; subst a. split.
      * apply Hpl, root_candidates_parentless. rewrite E. now left.
      * intros l H1 H2.
        assert (Hin : In l (root_candidates r (dict_keys (link_map r)))).
        { apply root_candidates_parentless, Hpl. auto. }
        rewrite E in Hin. destruct Hin as [<-|[]]. reflexivity.
    + intros (HR & Huniq).
      rewrite (@NoDup_all_equal _ R (root_candidates r (dict_keys (link_map r)))).
      * reflexivity.
      * apply NoDup_filter. apply Hunique.
      * apply root_candidates_parentless, Hpl, HR.
      * intros y Hy. apply root_candidates_parentless, Hpl in Hy.
        now apply Huniq.
  - intros e. rewrite get_root_candidates.
    destruct (root_candidates r (dict_keys (link_map r))) as [|a [|b t]];
      congruence.
  - rewrite get_root_candidates.
    destruct (root_candidates r (dict_keys (link_map r))) as [|a [|b t]];
      discriminate.
Qed.

(** ** Lookups by name *)

Lemma find_first (A : Type) (p : A -> bool) (l : list A) (x : A) :
  find p l = Some x <->
  exists before after,
    l = before ++ x :: after /\ p x = true /\
    forall y, In y before -> p y = false.
Proof.
  induction l as [|a l IH]; simpl.
  - split; [discriminate|]. intros (b & af & E & _). now destruct b.
  - destruct (p a) eqn:Pa.
    + split.
      * intros E. inversion E; subst. exists [], l. repeat split; auto.
        intros y [].
      * intros (b & af & E & Px & Hb). destruct b as [|b0 b]; simpl in E.
        -- now inversion E.
        -- inversion E; subst. rewrite (Hb b0 (or_introl eq_refl)) in Pa.
           discriminate.
    + rewrite IH. split.
      * intros (b & af & E & Px & Hb). exists (a :: b), af. subst l.
        repeat split; auto. intros y [<-|Hy]; auto.
      * intros (b & af & E & Px & Hb). destruct b as [|b0 b]; simpl in E.
        -- inversion E; subst. congruence.
        -- inversion E; subst. exists b, af. repeat split; auto.
           intros y Hy. apply Hb. now right.
Qed.

Lemma find_none_iff (A : Type) (p : A -> bool) (l : list A) :
  find p l = None <-> forall y, In y l -> p y = false.
Proof.
  split; [apply find_none|].
  intros H. destruct (find p l) as [x|] eqn:F; [|reflexivity].
  apply find_some in F. destruct F as (Hin & Px). rewrite (H x Hin) in Px.
  discriminate.
Qed.

(** X3.  [get_instance(kind, target)] on one of the robot's collections
    returns the first object of the collection whose name is [target],
    and [None] exactly when no object has that name.  [get_joint],
    [get_link] and [get_sensor] never raise. *)
Theorem get_instance_first_by_name (h : Heap) (self : XMLRobot)
  (targettype target : string) :
  (forall objs,
     getattr_list self (plural targettype) = Return objs ->
     exists r,
       get_instance h self targettype target = Return r /\
       (r = None <->
        forall o, In o objs -> attr_name h (plural targettype) o <> target) /\
       (forall o, r = Some o <->
          exists before after,
            objs = before ++ o :: after /\
            attr_name h (plural targettype) o = target /\
            forall o', In o' before ->
                       attr_name h (plural targettype) o' <> target)) /\
  (exists j l s,
     get_joint h self target = Return j /\
     get_link h self target = Return l /\
     get_sensor h self target = Return s).
Proof.
  assert (Hpl : (if negb (endswith targettype "s")
                 then (targettype ++ "s")%string else targettype)
                = plural targettype).
  { unfold plural. now destruct (endswith targettype "s"). }
  split.
  - intros objs Hget. unfold get_instance. rewrite Hpl, Hget. cbn [bind].
    eexists. split; [reflexivity|]. split.
    + rewrite find_none_iff. split; intros H o Hin; specialize (H o Hin).
      * intros E. rewrite E, String.eqb_refl in H. discriminate.
      * now apply String.eqb_neq.
    + intros o. rewrite find_first. split.
      * intros (b & af & E & Hn & Hb). exists b, af.
        repeat split; auto; [now apply String.eqb_eq|].
        intros o' Hin. apply String.eqb_neq. now apply Hb.
      * intros (b & af & E & Hn & Hb). exists b, af.
        repeat split; auto; [now apply String.eqb_eq|].
        intros o' Hin. apply String.eqb_neq. now apply Hb.
  - do 3 eexists. repeat split; reflexivity.
Qed.

Lemma get_instance_first_by_name_witness :
  get_joint two_link_heap two_link_robot "j1" = Return (Some j1_ref).
Proof.
  destruct (proj1 (get_instance_first_by_name two_link_heap two_link_robot
                     "joint" "j1") [j1_ref] eq_refl)
    as (r & Hr & _ & Hsome).
  unfold get_joint. rewrite Hr. f_equal. apply Hsome.
  exists [], []. repeat split. intros o' [].
Defined.

Lemma in_sync_get_joint h inserted r n :
  in_sync h inserted r ->
  NoDup (map (fun j => joint_name (joint_at h j)) inserted) ->
  get_joint h r n = Return (dict_get (joint_map r) n).
Proof.
  intros (_ & _ & Hn & Hj & _) Hnames. rewrite get_joint_find, Hn.
  unfold last_with_name. f_equal.
  destruct (find _ (rev inserted)) as [j|] eqn:F.
  - apply find_some in F. destruct F as (Hin & Hname).
    apply in_rev in Hin. apply String.eqb_eq in Hname.
    destruct (find _ (joints r)) as [j'|] eqn:G.
    + apply find_some in G. destruct G as (Hin' & Hname').
      apply String.eqb_eq in Hname'. apply Hj in Hin'. f_equal.
      apply (NoDup_map_injective _ _ j' j Hnames Hin' Hin). congruence.
    + apply Hj in Hin. apply (find_none _ _ G) in Hin.
      rewrite Hname, String.eqb_refl in Hin. discriminate.
  - apply find_none_iff. intros y Hy. apply Hj in Hy. apply in_rev in Hy.
    exact (find_none _ _ F y Hy).
Qed.

(** X4.  On a robot indexed from joints with pairwise distinct names,
    [get_joint(name)] (a search of the joint list) and [joint_map[name]]
    give the same object.  With two different joint objects of one name
    they part: [get_joint] keeps returning the first inserted, while
    [joint_map] holds the last. *)
Theorem get_joint_agrees_with_joint_map (h : Heap) :
  (forall inserted r n,
     in_sync h inserted r ->
     NoDup (map (fun j => joint_name (joint_at h j)) inserted) ->
     get_joint h r n = Return (dict_get (joint_map r) n)) /\
  (forall self a b n,
     a <> b ->
     joint_name (joint_at h a) = n ->
     joint_name (joint_at h b) = n ->
     get_joint h self n = Return None ->
     let r := joint_added h (joint_added h self a) b in
     get_joint h r n = Return (Some a) /\
     dict_get (joint_map r) n = Some b).
Proof.
  split.
  - intros inserted r n. apply in_sync_get_joint.
  - intros self a b n Hab Ha Hb Hnone r. subst r. split.
    + rewrite get_joint_find in *. inversion Hnone as [Hf]. clear Hnone.
      rewrite !joint_added_joints.
      assert (Ea : obj_in a (joints self) = false).
      { apply not_true_iff_false. rewrite obj_in_In. intros Hin.
        apply (find_none _ _ Hf) in Hin.
        rewrite Ha, String.eqb_refl in Hin. discriminate. }
      rewrite Ea.
      destruct (obj_in b (joints self ++ [a]));
        rewrite ?find_app, Hf; simpl; now rewrite Ha, String.eqb_refl.
    + rewrite joint_added_joint_map, Hb. now rewrite String.eqb_refl.
Qed.

Lemma get_joint_agrees_with_joint_map_witness :
  get_joint two_link_heap two_link_robot "j1"
    = Return (dict_get (joint_map two_link_robot) "j1") /\
  get_joint two_link_heap
      (joint_added two_link_heap (joint_added two_link_heap empty_robot 2) 3)
      "j1" = Return (Some 2) /\
  dict_get (joint_map
      (joint_added two_link_heap (joint_added two_link_heap empty_robot 2) 3))
      "j1" = Some 3.
Proof.
  split.
  - apply (proj1 (get_joint_agrees_with_joint_map two_link_heap) [j1_ref]).
    + apply two_link_built.
    + apply two_link_built.
  - apply (proj2 (get_joint_agrees_with_joint_map two_link_heap)
             empty_robot 2 3 "j1"); [discriminate | reflexivity..].
Defined.

(** ** Indices in the joint and link lists *)

Lemma first_index_find p objs k :
  match first_index p objs k with
  | None => find p objs = None
  | Some i =>
      k <= i /\
      exists x, nth_error objs (i - k) = Some x /\ find p objs = Some x /\
                forall m y, m < i - k -> nth_error objs m = Some y -> p y = false
  end.
Proof.
  revert k. induction objs as [|o objs IH]; intros k; simpl; [reflexivity|].
  destruct (p o) eqn:Po.
  - split; [lia|]. exists o. rewrite Nat.sub_diag. repeat split. intros m y Hm. lia.
  - specialize (IH (S k)). destruct (first_index p objs (S k)) as [i|];
      [|exact IH].
    destruct IH as (Hle & x & Hnth & Hfind & Hbefore). split; [lia|].
    exists x. replace (i - k) with (S (i - S k)) by lia. repeat split; auto.
    intros m y Hm Hy. destruct m as [|m]; simpl in Hy.
    + now inversion Hy; subst.
    + apply (Hbefore m y); [lia | exact Hy].
Qed.

(** X5.  [get_joint_id(name)] and [get_link_id(name)] return the position
    of the object that [get_joint] and [get_link] return: the first
    position of the list holding an object of that name; they return
    [None] exactly when the lookup by name returns [None]. *)
Theorem get_id_is_position_of_lookup (h : Heap) (self : XMLRobot) (n : string) :
  (exists r,
     get_joint_id h self n = Return r /\
     match r with
     | None => get_joint h self n = Return None
     | Some i =>
         exists j, nth_error (joints self) i = Some j /\
                   get_joint h self n = Return (Some j) /\
                   forall m x, m < i -> nth_error (joints self) m = Some x ->
                               joint_name (joint_at h x) <> n
     end) /\
  (exists r,
     get_link_id h self n = Return r /\
     match r with
     | None => get_link h self n = Return None
     | Some i =>
         exists l, nth_error (links self) i = Some l /\
                   get_link h self n = Return (Some l) /\
                   forall m x, m < i -> nth_error (links self) m = Some x ->
                               link_name (link_at h x) <> n
     end).
Proof.
  split.
  - eexists. split; [reflexivity|].
    pose proof (first_index_find
                  (fun obj => attr_name h "joints" obj =? n) (joints self) 0) as H.
    destruct (first_index _ (joints self) 0) as [i|].
    + destruct H as (_ & x & Hnth & Hfind & Hbefore).
      rewrite Nat.sub_0_r in *. exists x. repeat split; auto.
      * unfold get_joint, get_instance. simpl. now rewrite Hfind.
      * intros m y Hm Hy. apply String.eqb_neq. exact (Hbefore m y Hm Hy).
    + unfold get_joint, get_instance. simpl. now rewrite H.
  - eexists. split; [reflexivity|].
    pose proof (first_index_find
                  (fun obj => attr_name h "links" obj =? n) (links self) 0) as H.
    destruct (first_index _ (links self) 0) as [i|].
    + destruct H as (_ & x & Hnth & Hfind & Hbefore).
      rewrite Nat.sub_0_r in *. exists x. repeat split; auto.
      * unfold get_link, get_instance. simpl. now rewrite Hfind.
      * intros m y Hm Hy. apply String.eqb_neq. exact (Hbefore m y Hm Hy).
    + unfold get_link, get_instance. simpl. now rewrite H.
Qed.

(** ** Parents and children *)

Lemma get_parent_inv self c tt l :
  get_parent self c tt = Return (Some l) ->
  exists j p, dict_get (parent_map self) c = Some (j, p) /\
              l = match tt with
                  | link_target => [p]
                  | joint_target => [j]
                  end.
Proof.
  unfold get_parent, dict_item.
  destruct (dict_mem c (parent_map self)).
  - destruct (dict_get (parent_map self) c) as [[j p]|]; simpl; [|discriminate].
    intros H. exists j, p. split; [reflexivity|].
    destruct tt; now inversion H.
  - destruct (dict_mem c (child_map self)); discriminate.
Qed.

Lemma get_parent_of_entry self c j p tt :
  dict_get (parent_map self) c = Some (j, p) ->
  get_parent self c tt = Return (Some match tt with
                                      | link_target => [p]
                                      | joint_target => [j]
                                      end).
Proof.
  intros Hget. unfold get_parent, dict_item.
  destruct (dict_mem c (parent_map self)) eqn:E.
  - rewrite Hget. now destruct tt.
  - apply dict_mem_get in E. congruence.
Qed.

Lemma get_children_of_entry self p l tt :
  dict_get (child_map self) p = Some l ->
  get_children self p tt = match tt with
                           | joint_target => map fst l
                           | link_target => map snd l
                           end.
Proof.
  intros Hget. unfold get_children.
  destruct (dict_mem p (child_map self)) eqn:E.
  - now rewrite Hget.
  - apply dict_mem_get in E. congruence.
Qed.

Lemma in_sync_child_entry h inserted r c j p :
  in_sync h inserted r ->
  dict_get (parent_map r) c = Some (j, p) ->
  exists l, dict_get (child_map r) p = Some l /\ In (j, c) l.
Proof.
  intros (Hp & Hc & _) Hget. rewrite Hp in Hget. unfold last_with_child in Hget.
  destruct (find _ (rev inserted)) as [jr|] eqn:F; [|discriminate].
  apply find_some in F. destruct F as (Hin & Hchild).
  apply in_rev in Hin. apply String.eqb_eq in Hchild.
  simpl in Hget. inversion Hget; subst. clear Hget.
  assert (Hmem : In (joint_name (joint_at h jr), child (joint_at h jr))
                    (children_of h inserted (parent (joint_at h jr)))).
  { unfold children_of.
    apply (in_map (fun j => (joint_name (joint_at h j), child (joint_at h j)))).
    apply filter_In. split; [exact Hin | apply String.eqb_refl]. }
  rewrite Hc. destruct (children_of h inserted (parent (joint_at h jr)));
    [destruct Hmem|].
  eexists. split; [reflexivity | exact Hmem].
Qed.

(** X6.  On a robot indexed from inserted joints, the parent that
    [get_parent] reports for a link lists that link among its children:
    the two indices agree from child to parent.  The other direction can
    fail: after a second joint with the same child and another parent, the
    old parent still lists the link as its child. *)
Theorem parent_lists_its_child (h : Heap) :
  (forall inserted r c p,
     in_sync h inserted r ->
     get_parent r c link_target = Return (Some [p]) ->
     In c (get_children r p link_target)) /\
  (forall inserted r c j,
     in_sync h inserted r ->
     get_parent r c joint_target = Return (Some [j]) ->
     exists p, get_parent r c link_target = Return (Some [p]) /\
               In j (get_children r p joint_target)) /\
  (forall self j1 j2,
     child (joint_at h j1) = child (joint_at h j2) ->
     parent (joint_at h j1) <> parent (joint_at h j2) ->
     let r := joint_added h (joint_added h self j1) j2 in
     get_parent r (child (joint_at h j1)) link_target
       = Return (Some [parent (joint_at h j2)]) /\
     In (child (joint_at h j1))
        (get_children r (parent (joint_at h j1)) link_target)).
Proof.
  split; [|split].
  - intros inserted r c p Hs Hpar.
    destruct (get_parent_inv _ _ _ Hpar) as (j & p' & Hget & E).
    inversion E; subst p'.
    destruct (in_sync_child_entry _ Hs Hget) as (l & Hl & Hin).
    rewrite (get_children_of_entry _ _ link_target Hl).
    now apply (in_map snd l (j, c)).
  - intros inserted r c j Hs Hpar.
    destruct (get_parent_inv _ _ _ Hpar) as (j' & p & Hget & E).
    inversion E; subst j'. exists p. split.
    + exact (get_parent_of_entry _ _ link_target Hget).
    + destruct (in_sync_child_entry _ Hs Hget) as (l & Hl & Hin).
      rewrite (get_children_of_entry _ _ joint_target Hl).
      now apply (in_map fst l (j, c)).
  - intros self j1 j2 Hc Hp r. subst r. split.
    + apply (get_parent_of_entry _ _ link_target (j := joint_name (joint_at h j2))).
      rewrite joint_added_parent_map, Hc. now rewrite String.eqb_refl.
    + erewrite get_children_of_entry.
      2:{ rewrite joint_added_child_map.
          destruct (String.eqb_spec (parent (joint_at h j2))
                                    (parent (joint_at h j1))); [congruence|].
          rewrite joint_added_child_map. now rewrite String.eqb_refl. }
      rewrite map_app. apply in_or_app. right. now left.
Qed.

Lemma parent_lists_its_child_witness :
  In "arm" (get_children two_link_robot "base" link_target).
Proof.
  apply (proj1 (parent_lists_its_child two_link_heap) [j1_ref] two_link_robot);
    [apply two_link_built | reflexivity].
Defined.

(** ** Depth of links and joints *)

Lemma descends_nil self root p : descends self root p [] -> p = root.
Proof.
  intros H. inversion H as [|p' c j path Hd Hne Hget Hpath]; [reflexivity|].
  now destruct path.
Qed.

Lemma descends_root_has_child h inserted r root l path :
  in_sync h inserted r ->
  descends r root l path ->
  path <> [] ->
  dict_mem root (child_map r) = true.
Proof.
  intros Hs Hd. induction Hd as [|p c j path Hd IH Hne Hget]; intros Hnil;
    [congruence|].
  destruct path as [|e path].
  - apply descends_nil in Hd. subst p.
    destruct (in_sync_child_entry _ Hs Hget) as (l & Hl & _).
    destruct (dict_mem root (child_map r)) eqn:E; [reflexivity|].
    apply dict_mem_get in E. congruence.
  - apply IH. discriminate.
Qed.

Lemma in_sync_joint_lookup h inserted r c jn p :
  in_sync h inserted r ->
  NoDup (map (fun j => joint_name (joint_at h j)) inserted) ->
  dict_get (parent_map r) c = Some (jn, p) ->
  exists j,
    get_joint h r jn = Return (Some j) /\
    parent (joint_at h j) = p /\
    child (joint_at h j) = c.
Proof.
  intros Hs Hnames Hget. pose proof Hs as (Hp & _ & Hn & _).
  rewrite Hp in Hget. unfold last_with_child in Hget.
  destruct (find _ (rev inserted)) as [j|] eqn:F; [|discriminate].
  apply find_some in F. destruct F as (Hin & Hc).
  apply in_rev in Hin. apply String.eqb_eq in Hc.
  simpl in Hget. inversion Hget; subst. clear Hget.
  exists j. repeat split.
  rewrite (in_sync_get_joint _ Hs Hnames), Hn. unfold last_with_name.
  destruct (find _ (rev inserted)) as [j'|] eqn:G.
  - apply find_some in G. destruct G as (Hin' & Hname).
    apply in_rev in Hin'. apply String.eqb_eq in Hname.
    now rewrite (NoDup_map_injective _ _ j' j Hnames Hin' Hin Hname).
  - exfalso. apply in_rev in Hin. apply (find_none _ _ G) in Hin.
    now rewrite String.eqb_refl in Hin.
Qed.

Lemma get_link_level_loop_descends h inserted r root l path :
  in_sync h inserted r ->
  NoDup (map (fun j => joint_name (joint_at h j)) inserted) ->
  descends r root l path ->
  dict_get (parent_map r) root = None ->
  dict_mem root (child_map r) = true ->
  forall fuel level,
    List.length path < fuel ->
    exists x,
      get_parent r l joint_target = Return x /\
      get_link_level_loop fuel h r x level
        = Return (level + List.length path).
Proof.
  intros Hs Hnames Hd Hroot Hchild.
  induction Hd as [|p c j path Hd IH Hne Hget]; intros fuel level Hfuel.
  - exists None. split.
    + rewrite (get_parent_orphan _ _ Hroot). now rewrite Hchild.
    + destruct fuel; [inversion Hfuel|]. simpl. f_equal. lia.
  - rewrite length_app in *. simpl in Hfuel.
    destruct fuel as [|fuel]; [inversion Hfuel|].
    exists (Some [j]). split; [exact (get_parent_joint _ _ Hget)|].
    destruct (@in_sync_joint_lookup h inserted r c j p Hs Hnames Hget)
      as (jr & Hj & Hp & _).
    destruct (IH fuel (S level)) as (x & Hx & Hloop); [lia|].
    cbn [get_link_level_loop]. rewrite Hj. cbn [bind]. rewrite Hp, Hx.
    cbn [bind]. rewrite Hloop. f_equal. simpl. lia.
Qed.

Lemma blank_root_in_sync : in_sync blank_root_heap [j1_ref] blank_root_robot.
Proof.
  split; [|split; [|split; [|split]]].
  - intros c. unfold last_with_child. cbn -[String.eqb].
    now destruct ("arm" =? c).
  - intros p. unfold children_of. cbn -[String.eqb].
    now destruct (EmptyString =? p).
  - intros n. unfold last_with_name. cbn -[String.eqb].
    now destruct ("j" =? n).
  - intros j. reflexivity.
  - simpl. repeat constructor. intros [].
Qed.

(** X7.  On a robot indexed from joints with pairwise distinct names --
    with or without an origin pose -- [get_link_level] returns the depth
    of a link below a parentless root, that is the number of joints
    between them, and [get_joint_level] the depth of the joint's parent
    link.  A parentless link with a child has level 0; a link that no
    joint mentions makes [get_link_level] raise [AssertionError]. *)
Theorem get_link_level_is_depth (h : Heap) (r : XMLRobot) :
  (forall inserted root l path fuel,
     in_sync h inserted r ->
     NoDup (map (fun j => joint_name (joint_at h j)) inserted) ->
     descends r root l path ->
     dict_get (parent_map r) root = None ->
     path <> [] ->
     List.length path < fuel ->
     get_link_level fuel h r l = Return (List.length path)) /\
  (forall inserted root jn jr path fuel,
     in_sync h inserted r ->
     NoDup (map (fun j => joint_name (joint_at h j)) inserted) ->
     get_joint h r jn = Return (Some jr) ->
     descends r root (parent (joint_at h jr)) path ->
     dict_get (parent_map r) root = None ->
     List.length path < fuel ->
     get_joint_level fuel h r jn = Return (List.length path)) /\
  (forall root fuel,
     dict_get (parent_map r) root = None ->
     dict_mem root (child_map r) = true ->
     0 < fuel ->
     get_link_level fuel h r root = Return 0) /\
  (forall l fuel,
     dict_get (parent_map r) l = None ->
     dict_mem l (child_map r) = false ->
     get_link_level fuel h r l = Raise AssertionError).
Proof.
  split; [|split; [|split]].
  - intros inserted root l path fuel Hs Hnames Hd Hroot Hnil Hfuel.
    assert (Hchild : dict_mem root (child_map r) = true)
      by exact (descends_root_has_child Hs Hd Hnil).
    destruct (get_link_level_loop_descends Hs Hnames Hd Hroot Hchild 0 Hfuel)
      as (x & Hx & Hloop).
    unfold get_link_level. rewrite Hx. exact Hloop.
  - intros inserted root jn jr path fuel Hs Hnames Hj Hd Hroot Hfuel.
    assert (Hin : In jr inserted).
    { pose proof Hs as (_ & _ & _ & Hjs & _).
      rewrite get_joint_find in Hj. inversion Hj as [Hf].
      apply find_some in Hf. now apply Hjs. }
    assert (Hchild : dict_mem root (child_map r) = true).
    { destruct path as [|e path].
      - pose proof Hs as (_ & Hc & _).
        apply descends_nil in Hd.
        destruct (dict_mem root (child_map r)) eqn:E; [reflexivity|].
        apply dict_mem_get in E. rewrite Hc in E.
        assert (Hmem : In (joint_name (joint_at h jr), child (joint_at h jr))
                          (children_of h inserted root)).
        { unfold children_of.
          apply (in_map (fun j => (joint_name (joint_at h j),
                                   child (joint_at h j)))).
          apply filter_In. split; [exact Hin|]. rewrite Hd.
          apply String.eqb_refl. }
        destruct (children_of h inserted root); [destruct Hmem | discriminate].
      - apply (@descends_root_has_child h inserted r root
                 (parent (joint_at h jr)) (e :: path));
          [exact Hs | exact Hd | discriminate]. }
    destruct (get_link_level_loop_descends Hs Hnames Hd Hroot Hchild 0 Hfuel)
      as (x & Hx & Hloop).
    unfold get_joint_level, get_link_level. rewrite Hj. cbn [bind].
    rewrite Hx. exact Hloop.
  - intros root fuel Hroot Hchild Hfuel.
    unfold get_link_level. rewrite (get_parent_orphan _ _ Hroot), Hchild.
    destruct fuel; [inversion Hfuel | reflexivity].
  - intros l fuel Hl Hchild.
    unfold get_link_level. rewrite (get_parent_orphan _ _ Hl), Hchild.
    reflexivity.
Qed.

Lemma get_link_level_is_depth_witness :
  _origin (joint_at blank_root_heap j1_ref) = None /\
  get_link_level 2 blank_root_heap blank_root_robot "arm" = Return 1.
Proof.
  split; [reflexivity|].
  refine (proj1 (get_link_level_is_depth blank_root_heap blank_root_robot)
            [j1_ref] EmptyString "arm" ([] ++ [("j", "arm")]) 2
            blank_root_in_sync _ _ eq_refl _ _).
  - simpl. repeat constructor. intros [].
  - apply descends_step with (p := EmptyString);
      [constructor | discriminate | reflexivity].
  - discriminate.
  - simpl. lia.
Defined.

(** ** Generations of children *)

Section Generations.
Variable self : XMLRobot.

Lemma get_children_links p :
  get_children self p link_target = child_links self p.
Proof.
  unfold get_children, child_links.
  destruct (dict_mem p (child_map self)) eqn:E.
  - now destruct (dict_get (child_map self) p).
  - apply dict_mem_get in E. now rewrite E.
Qed.

Lemma children_of_parents P :
  flat_map (fun p => get_children self p link_target) P
  = generation self P 1.
Proof.
  unfold generation. cbn [Nat.iter nat_rect].
  induction P as [|p P IH]; cbn [flat_map]; [reflexivity|].
  now rewrite get_children_links, IH.
Qed.

Lemma generation_shift P i :
  generation self (generation self P 1) i = generation self P (S i).
Proof.
  unfold generation.
  change (Nat.iter 1 (flat_map (child_links self)) P)
    with (flat_map (child_links self) P).
  now rewrite <- Nat.iter_succ_r.
Qed.

Lemma generations_shift P a n :
  generations self (generation self P 1) a n = generations self P (S a) n.
Proof.
  unfold generations. revert a. induction n as [|n IH]; intros a;
    [reflexivity|].
  cbn [seq flat_map]. now rewrite generation_shift, IH.
Qed.

Lemma nonempty_length (l : list string) :
  l <> [] -> Nat.ltb 0 (List.length l) = true.
Proof.
  intros H. apply Nat.ltb_lt. destruct l; [congruence | simpl; lia].
Qed.

Lemma get_children_lists_generations k :
  forall P C depth,
    (forall i, 1 <= i <= k -> generation self P i <> []) ->
    generation self P (S k) = [] ->
    k < depth ->
    _get_children_lists depth self P C link_target
    = Return match k with
             | O => ([], [])
             | S _ => (generations self P 0 k, C ++ generations self P 1 k)
             end.
Proof.
  induction k as [|k IH]; intros P C depth Hfull Hlast Hdepth;
    (destruct depth as [|depth]; [inversion Hdepth|]);
    cbn [_get_children_lists]; rewrite children_of_parents.
  - now rewrite Hlast.
  - rewrite (nonempty_length (Hfull 1 ltac:(lia))).
    rewrite (IH (generation self P 1) [] depth).
    + cbn [bind fst snd]. f_equal.
      destruct k as [|k].
      * unfold generations. cbn [seq flat_map]. now rewrite !app_nil_r.
      * rewrite !generations_shift. unfold generations.
        cbn [seq flat_map app]. reflexivity.
    + intros i Hi. rewrite generation_shift. apply Hfull. lia.
    + now rewrite generation_shift.
    + lia.
Qed.

Lemma get_children_lists_too_deep depth :
  forall P C,
    (forall i, i < depth -> generation self P (S i) <> []) ->
    _get_children_lists depth self P C link_target = Raise RecursionError.
Proof.
  induction depth as [|depth IH]; intros P C Hfull; [reflexivity|].
  cbn [_get_children_lists]. rewrite children_of_parents.
  rewrite (nonempty_length (Hfull 0 ltac:(lia))).
  rewrite IH; [reflexivity|].
  intros i Hi. rewrite generation_shift. apply Hfull. lia.
Qed.
End Generations.

(** X8.  What [get_leaves(start)] returns for a child link [start], where
    generation 0 is [start] and generation [n+1] holds the child links
    that [child_map] records for the links of generation [n].  If the
    generations end after the [k]-th and the recursion limit allows
    [k+1] nested calls, the first set holds generations 0 to [k-1] and the
    second generations 1 to [k]; for a link without children both sets
    are empty.  If the generations do not end within the recursion limit
    -- on a cycle in [child_map] they never end -- the call raises
    [RecursionError]. *)
Theorem get_leaves_partition_by_generation (self : XMLRobot) (start : string) :
  start <> EmptyString ->
  dict_get (parent_map self) start <> None ->
  (forall k depth,
     (forall i, 1 <= i <= k -> generation self [start] i <> []) ->
     generation self [start] (S k) = [] ->
     k < depth ->
     get_leaves depth self (Some start)
     = Return (LeavesPartition (set_of (generations self [start] 0 k))
                               (set_of (generations self [start] 1 k)))) /\
  (forall depth,
     child_links self start = [] ->
     0 < depth ->
     get_leaves depth self (Some start) = Return (LeavesPartition [] [])) /\
  (forall depth,
     (forall i, i < depth -> generation self [start] (S i) <> []) ->
     get_leaves depth self (Some start) = Raise RecursionError).
Proof.
  intros Hne Hchild.
  assert (Hhead : forall depth,
             get_leaves depth self (Some start) =
             (res <- _get_children_lists depth self [start] [] link_target ;;
              Return (LeavesPartition (set_of (fst res)) (set_of (snd res))))).
  { intros depth. unfold get_leaves.
    destruct (String.eqb_spec start EmptyString) as [|_]; [contradiction|].
    destruct (dict_mem start (parent_map self)) eqn:E; [reflexivity|].
    apply dict_mem_get in E. contradiction. }
  split; [|split].
  - intros k depth Hfull Hlast Hdepth. rewrite Hhead.
    rewrite (@get_children_lists_generations self k [start] [] depth
               Hfull Hlast Hdepth).
    now destruct k.
  - intros depth Hleaf Hdepth. rewrite Hhead.
    rewrite (@get_children_lists_generations self 0 [start] [] depth);
      [reflexivity | intros i Hi; lia | | exact Hdepth].
    unfold generation. simpl. now rewrite Hleaf.
  - intros depth Hdeep. rewrite Hhead.
    now rewrite get_children_lists_too_deep.
Qed.

Lemma get_leaves_partition_by_generation_witness :
  get_leaves 3 three_link_robot (Some "arm")
  = Return (LeavesPartition ["arm"] ["hand"]) /\
  get_leaves 3 looped_robot (Some "arm") = Raise RecursionError.
Proof.
  split.
  - apply (proj1 (@get_leaves_partition_by_generation three_link_robot "arm"
                    ltac:(discriminate) ltac:(discriminate)) 1 3).
    + intros i Hi. assert (i = 1) as -> by lia. discriminate.
    + reflexivity.
    + lia.
  - apply (proj2 (proj2 (@get_leaves_partition_by_generation looped_robot "arm"
                           ltac:(discriminate) ltac:(discriminate))) 3).
    intros i Hi.
    destruct i as [|[|[|i]]]; [discriminate | discriminate | discriminate | lia].
Defined.

(** ** Global origins *)

(** X9.  [global_origin(stop)] decomposes, with 6 decimals and no frame,
    the transform that [get_transformation] accumulates from the root: for
    the root link itself that is the transform
    [create_transformation((0,0,0), (0,0,0))], and along a walk of joints
    it is their left-multiplied product.  When the robot has no unique
    root, [global_origin] raises for every link. *)
Theorem global_origin_from_root
  (create_transformation : option (list R) -> option (list R) -> matrix)
  (matrix_to_rpy : matrix -> list R)
  (round_array : list R -> pyval -> outcome (list R))
  (h : Heap) (self : XMLRobot) :
  let zero := Some [0%R; 0%R; 0%R] in
  (forall root fuel,
     get_root self = Return root ->
     0 < fuel ->
     global_origin create_transformation matrix_to_rpy round_array
       fuel h self root
     = from_matrix matrix_to_rpy round_array
         (create_transformation zero zero) (PyInt 6) None) /\
  (forall root stop js fuel,
     get_root self = Return root ->
     climbs h self root stop root js ->
     List.length js < fuel ->
     global_origin create_transformation matrix_to_rpy round_array
       fuel h self stop
     = from_matrix matrix_to_rpy round_array
         (compose mat_dot create_transformation js
                  (create_transformation zero zero)) (PyInt 6) None) /\
  (forall stop fuel e,
     get_root self = Raise e ->
     global_origin create_transformation matrix_to_rpy round_array
       fuel h self stop = Raise e).
Proof.
  intros zero. split; [|split].
  - intros root fuel Hroot Hfuel. unfold global_origin, get_transformation.
    rewrite Hroot. cbn [bind]. destruct fuel; [inversion Hfuel|].
    cbn [get_transformation_loop]. now rewrite String.eqb_refl.
  - intros root stop js fuel Hroot Hc Hfuel.
    unfold global_origin, get_transformation. rewrite Hroot. cbn [bind].
    rewrite (get_transformation_loop_climbs mat_dot create_transformation
               Hc _ Hfuel).
    now rewrite String.eqb_refl.
  - intros stop fuel e Hroot. unfold global_origin, get_transformation.
    now rewrite Hroot.
Qed.

Lemma global_origin_from_root_witness :
  global_origin (create_transformation_model rpy_rotation)
    (fun _ => [0%R; 0%R; 0%R]) integer_dec_round 1 two_link_heap
    two_link_robot "base"
  = from_matrix (fun _ => [0%R; 0%R; 0%R]) integer_dec_round
      (create_transformation_model rpy_rotation
         (Some [0%R; 0%R; 0%R]) (Some [0%R; 0%R; 0%R])) (PyInt 6) None.
Proof.
  apply (proj1 (global_origin_from_root
                  (create_transformation_model rpy_rotation)
                  (fun _ => [0%R; 0%R; 0%R]) integer_dec_round
                  two_link_heap two_link_robot));
    [reflexivity | lia].
Defined.

(** ** The version check *)

(** X10.  [post_read_xml()] accepts exactly the version string [1.0] (a
    missing version is first set to [1.0]); for every other string it
    raises [ValueError], whichever of its checks fires first. *)
Theorem post_read_xml_accepts_only_1_0 (py_int : string -> outcome Z) :
  (forall s, (exists z, py_int s = Return z) \/ py_int s = Raise ValueError) ->
  py_int "1" = Return 1%Z ->
  py_int "0" = Return 0%Z ->
  post_read_xml py_int None = Return "1.0" /\
  post_read_xml py_int (Some "1.0") = Return "1.0" /\
  (forall v, v <> "1.0" -> post_read_xml py_int (Some v) = Raise ValueError).
Proof.
  intros Hint H1 H0.
  assert (Hok : post_read_xml py_int (Some "1.0") = Return "1.0").
  { unfold post_read_xml. cbn -[Z.ltb]. rewrite H1. cbn [bind].
    cbn. now rewrite H0. }
  split; [exact Hok | split; [exact Hok|]].
  intros v Hv. unfold post_read_xml.
  destruct (negb (Nat.eqb (List.length (split_on "." v)) 2)); [reflexivity|].
  destruct ((nth 0 (split_on "." v) EmptyString =? EmptyString)
            || (nth 1 (split_on "." v) EmptyString =? EmptyString));
    [reflexivity|].
  assert (Hlast : (if negb (str_in_list v SUPPORTED_VERSIONS)
                   then Raise ValueError else Return v) = Raise ValueError).
  { unfold SUPPORTED_VERSIONS, str_in_list. cbn [existsb].
    destruct (String.eqb_spec v "1.0"); [contradiction | reflexivity]. }
  destruct (Hint (nth 0 (split_on "." v) EmptyString)) as [(z0 & E0)|E0];
    rewrite E0; [|reflexivity].
  cbn [bind]. destruct (Z.ltb z0 0); [reflexivity|].
  destruct (Hint (nth 1 (split_on "." v) EmptyString)) as [(z1 & E1)|E1];
    rewrite E1; [|reflexivity].
  cbn [bind]. destruct (Z.ltb z1 0); [reflexivity | exact Hlast].
Qed.

Lemma post_read_xml_accepts_only_1_0_witness :
  post_read_xml decimal_int (Some "1.0") = Return "1.0" /\
  post_read_xml decimal_int (Some "2.0") = Raise ValueError /\
  post_read_xml decimal_int (Some "1") = Raise ValueError.
Proof.
  assert (Hint : forall s, (exists z, decimal_int s = Return z) \/
                           decimal_int s = Raise ValueError).
  { intros s. unfold decimal_int.
    destruct (NilZero.int_of_string s); [left; eexists; reflexivity | now right]. }
  destruct (post_read_xml_accepts_only_1_0 decimal_int Hint eq_refl eq_refl)
    as (_ & Hok & Hbad).
  split; [exact Hok|]. split; apply Hbad; discriminate.
Defined.

(** ** Poses from vectors *)

(** X11.  A pose built from a 6-vector gives that vector back as [vec] and
    passes [check_valid]; built from a 3-vector it has that translation
    and the given rotation (zeros when there is none); a vector of any
    other length is refused with [AssertionError].  Whenever
    [check_valid] passes, [vec] has exactly 6 components. *)
Theorem Pose_vec_round_trip :
  (forall xyz rpy v extra rel,
     List.length v = 6 ->
     exists p,
       Pose_init xyz rpy (Some v) extra rel = Return p /\
       Pose_vec p = v /\
       relative_to p = rel /\
       Pose_check_valid p = Return tt) /\
  (forall xyz rpy v extra rel,
     List.length v = 3 ->
     exists p,
       Pose_init xyz rpy (Some v) extra rel = Return p /\
       Pose_vec p = v ++ or_zeros rpy) /\
  (forall xyz rpy v extra rel,
     List.length v <> 3 -> List.length v <> 6 ->
     Pose_init xyz rpy (Some v) extra rel = Raise AssertionError) /\
  (forall p, Pose_check_valid p = Return tt -> List.length (Pose_vec p) = 6).
Proof.
  split; [|split; [|split]].
  - intros xyz0 rpy0 v extra rel Hlen.
    destruct v as [|a [|b [|c [|d [|e [|f [|g v]]]]]]]; try discriminate.
    eexists. split; [reflexivity|]. repeat split.
  - intros xyz0 rpy0 v extra rel Hlen.
    destruct v as [|a [|b [|c [|d v]]]]; try discriminate.
    eexists. split; [reflexivity|]. reflexivity.
  - intros xyz0 rpy0 v extra rel H3 H6. unfold Pose_init, Pose_from_vec.
    destruct (Nat.eqb_spec (List.length v) 3); [contradiction|].
    destruct (Nat.eqb_spec (List.length v) 6); [contradiction | reflexivity].
  - intros [x r f]. unfold Pose_check_valid, Pose_vec. simpl.
    destruct x as [[|x0 [|x1 [|x2 [|x3 x]]]]|],
             r as [[|r0 [|r1 [|r2 [|r3 r]]]]|]; simpl; try discriminate;
      reflexivity.
Qed.

Lemma Pose_vec_round_trip_witness :
  exists p,
    Pose_init None None (Some [1%R; 2%R; 3%R; 0%R; 0%R; 0%R]) None None
      = Return p /\
    Pose_vec p = [1%R; 2%R; 3%R; 0%R; 0%R; 0%R].
Proof.
  destruct (proj1 Pose_vec_round_trip None None
              [1%R; 2%R; 3%R; 0%R; 0%R; 0%R] None None eq_refl)
    as (p & Hp & Hv & _).
  exists p. split; assumption.
Defined.

(** ** Colors *)

(** X12.  A [Color] that is constructed without error has no [rgba] at all
    or one of exactly four components: a list of three gets the alpha
    [1.0] appended.  Three positional components do not get that far: the
    [args] tuple cannot be extended with a list and the constructor raises
    [TypeError].  Two positional components are dropped silently. *)
Theorem Color_rgba_has_four_components :
  (forall args rgba c,
     Color_init args rgba = Return c ->
     c = ONone \/
     exists l, (c = OList l \/ c = OTuple l) /\ List.length l = 4) /\
  (forall a b c, Color_init [] (OList [a; b; c])
                 = Return (OList [a; b; c; ONum 1%R])) /\
  (forall a b c, Color_init [a; b; c] ONone = Raise TypeError) /\
  (forall a b c d, Color_init [a; b; c; d] ONone = Return (OTuple [a; b; c; d])) /\
  (forall a b, Color_init [a; b] ONone = Return ONone).
Proof.
  split; [|repeat split].
  intros args rgba c.
  assert (Hcheck : forall x c,
            (n <- py_len x ;;
             x' <- (if Nat.eqb n 3 then py_iadd_one x else Return x) ;;
             n' <- py_len x' ;;
             if negb (Nat.eqb n' 4) then Raise Exception else Return x')
            = Return c ->
            exists l, (c = OList l \/ c = OTuple l) /\ List.length l = 4).
  { intros x c0. destruct x as [|r|l|l]; simpl; try discriminate.
    - destruct (Nat.eqb (List.length l) 3); simpl.
      + destruct (Nat.eqb_spec (List.length (l ++ [ONum 1%R])) 4); simpl;
          [|discriminate].
        intros E. inversion E. eauto.
      + destruct (Nat.eqb_spec (List.length l) 4); simpl; [|discriminate].
        intros E. inversion E. eauto.
    - destruct (Nat.eqb (List.length l) 3); simpl; [discriminate|].
      destruct (Nat.eqb_spec (List.length l) 4); simpl; [|discriminate].
      intros E. inversion E. eauto. }
  unfold Color_init.
  destruct rgba as [|r|l|l].
  - destruct (Nat.eqb (List.length args) 4 || Nat.eqb (List.length args) 3).
    + intros H. right. exact (Hcheck _ _ H).
    + destruct (Nat.eqb (List.length args) 1).
      * destruct (nth 0 args ONone) eqn:E.
        -- intros H. inversion H. now left.
        -- intros H. right. exact (Hcheck _ _ H).
        -- intros H. right. exact (Hcheck _ _ H).
        -- intros H. right. exact (Hcheck _ _ H).
      * intros H. inversion H. now left.
  - intros H. right. exact (Hcheck _ _ H).
  - intros H. right. exact (Hcheck _ _ H).
  - intros H. right. exact (Hcheck _ _ H).
Qed.

Lemma Color_rgba_has_four_components_witness :
  Color_init [] (OList [ONum 1%R; ONum 0%R; ONum 0%R])
  = Return (OList [ONum 1%R; ONum 0%R; ONum 0%R; ONum 1%R]) /\
  exists l, List.length l = 4 /\
            (OList [ONum 1%R; ONum 0%R; ONum 0%R; ONum 1%R] = OList l \/
             OList [ONum 1%R; ONum 0%R; ONum 0%R; ONum 1%R] = OTuple l).
Proof.
  split; [reflexivity|].
  destruct (proj1 Color_rgba_has_four_components []
              (OList [ONum 1%R; ONum 0%R; ONum 0%R])
              (OList [ONum 1%R; ONum 0%R; ONum 0%R; ONum 1%R]) eq_refl)
    as [H|(l & Hl & Hlen)]; [discriminate|].
  exists l. split; assumption.
Defined.

(** ** Inertial and the spatial mass matrix *)

(** X13.  [to_mass_matrix] gives a symmetric 6x6 matrix from which
    [Inertial.from_mass_matrix] recovers the inertial it came from: mass,
    the six tensor entries and the origin.  Without an inertia tensor
    [to_mass_matrix] raises [AttributeError]. *)
Theorem mass_matrix_round_trip (self : Inertial) :
  (forall I,
     inertia self = Some I ->
     exists M,
       to_mass_matrix self = Return M /\
       Inertial_from_mass_matrix M (inertial_origin self) = Return self /\
       transpose 6 M = M /\
       List.length M = 6 /\
       Forall (fun row => List.length row = 6) M) /\
  (inertia self = None -> to_mass_matrix self = Raise AttributeError).
Proof.
  split.
  - intros I HI. destruct self as [m i o]. simpl in HI. subst i.
    destruct I as [xx xy xz yy yz zz].
    eexists. split; [reflexivity|]. split; [|split; [|split]].
    + unfold Inertial_from_mass_matrix, Inertia_from_mass_matrix, mat_item.
      cbn [map skipn nth_error identity3 Inertia_to_matrix app bind
           ixx ixy ixz iyy iyz izz].
      now rewrite Rmult_1_l.
    + unfold transpose, column.
      cbn [map seq nth identity3 Inertia_to_matrix app
           ixx ixy ixz iyy iyz izz].
      repeat (f_equal; try ring).
    + reflexivity.
    + repeat constructor.
  - intros HI. unfold to_mass_matrix. now rewrite HI.
Qed.

Lemma mass_matrix_round_trip_witness :
  exists M,
    to_mass_matrix {| mass := 2%R;
                      inertia := Some {| ixx := 1%R; ixy := 0%R; ixz := 0%R;
                                         iyy := 1%R; iyz := 0%R; izz := 1%R |};
                      inertial_origin := None |} = Return M /\
    transpose 6 M = M.
Proof.
  destruct (proj1 (mass_matrix_round_trip
                     {| mass := 2%R;
                        inertia := Some {| ixx := 1%R; ixy := 0%R; ixz := 0%R;
                                           iyy := 1%R; iyz := 0%R; izz := 1%R |};
                        inertial_origin := None |}) _ eq_refl)
    as (M & HM & _ & Hsym & _).
  exists M. split; assumption.
Defined.

(** ** Links *)

Lemma fill_frames_spec name geos :
  forall g,
    (forall geo, In geo geos -> geo_origin_at g geo <> None) ->
    exists g',
      fill_frames name geos g = (g', Return tt) /\
      (forall x, geo_name_at g' x = geo_name_at g x) /\
      (forall x, geo_origin_at g' x = geo_origin_at g x) /\
      (forall x, geo_class_at g' x = geo_class_at g x) /\
      (forall o, frame_at g' o =
                 match frame_at g o with
                 | Some f => Some f
                 | None => if origin_among g geos o then name else None
                 end).
Proof.
  induction geos as [|geo geos IH]; intros g Horig.
  - exists g. repeat split. intros o. simpl. now destruct (frame_at g o).
  - cbn [fill_frames].
    destruct (geo_origin_at g geo) as [o0|] eqn:E0;
      [|exfalso; apply (Horig geo); [now left | exact E0]].
    pose (g1 := match frame_at g o0 with
                | None => set_frame g o0 name
                | Some _ => g
                end).
    assert (Hsame : (forall x, geo_name_at g1 x = geo_name_at g x) /\
                    (forall x, geo_origin_at g1 x = geo_origin_at g x) /\
                    (forall x, geo_class_at g1 x = geo_class_at g x)).
    { subst g1. destruct (frame_at g o0); repeat split. }
    destruct Hsame as (Hn1 & Ho1 & Hc1).
    destruct (IH g1) as (g' & Hrun & Hn & Ho & Hc & Hf).
    { intros x Hx. rewrite Ho1. apply Horig. now right. }
    exists g'. fold g1. split; [exact Hrun|].
    split; [intros x; now rewrite Hn, Hn1|].
    split; [intros x; now rewrite Ho, Ho1|].
    split; [intros x; now rewrite Hc, Hc1|].
    intros o. rewrite Hf.
    assert (Hamong : origin_among g1 geos o = origin_among g geos o).
    { unfold origin_among. clear -Ho1.
      induction geos as [|x geos IHg]; simpl; [reflexivity|].
      now rewrite Ho1, IHg. }
    rewrite Hamong. unfold origin_among at 2. cbn [existsb]. rewrite E0.
    cbn [opt_ref_eqb]. fold (origin_among g geos o).
    assert (Hfr : frame_at g1 o = match frame_at g o with
                                  | Some f => Some f
                                  | None => if Nat.eqb o o0 then name else None
                                  end).
    { subst g1. destruct (frame_at g o0) eqn:F0.
      - destruct (frame_at g o) eqn:Fo; [reflexivity|].
        destruct (Nat.eqb_spec o o0); [congruence | reflexivity].
      - simpl. destruct (Nat.eqb_spec o o0) as [->|Hne].
        + now rewrite F0.
        + now destruct (frame_at g o). }
    rewrite Hfr. destruct (frame_at g o); [reflexivity|].
    rewrite (Nat.eqb_sym o0 o).
    destruct (Nat.eqb o o0); cbn [orb]; [|reflexivity].
    destruct name; [reflexivity|]. now destruct (origin_among g geos o).
Qed.

Lemma fill_names_spec n suffix geos :
  forall g,
    exists g',
      fill_names (Some n) suffix geos g = (g', Return tt) /\
      (forall x, geo_origin_at g' x = geo_origin_at g x) /\
      (forall x, geo_class_at g' x = geo_class_at g x) /\
      (forall o, frame_at g' o = frame_at g o) /\
      (forall x, geo_name_at g' x =
                 match geo_name_at g x with
                 | Some s => Some s
                 | None => if obj_in x geos
                           then Some (n ++ suffix)%string else None
                 end).
Proof.
  induction geos as [|geo geos IH]; intros g.
  - exists g. repeat split. intros x. simpl. now destruct (geo_name_at g x).
  - cbn [fill_names]. destruct (geo_name_at g geo) as [s|] eqn:E.
    + destruct (IH g) as (g' & Hrun & Ho & Hc & Hf & Hn).
      exists g'. repeat split; auto. intros x. rewrite Hn.
      destruct (geo_name_at g x) eqn:Ex; [reflexivity|].
      unfold obj_in. cbn [existsb].
      destruct (Nat.eqb_spec x geo); [congruence | reflexivity].
    + destruct (IH (set_geo_name g geo (Some (n ++ suffix)%string)))
        as (g' & Hrun & Ho & Hc & Hf & Hn).
      exists g'. repeat split; auto. intros x. rewrite Hn. simpl.
      unfold obj_in. cbn [existsb].
      destruct (Nat.eqb_spec x geo) as [->|Hne]; [now rewrite E|].
      reflexivity.
Qed.

Lemma origin_among_In g geos geo o :
  In geo geos -> geo_origin_at g geo = Some o -> origin_among g geos o = true.
Proof.
  intros Hin Ho. unfold origin_among. apply existsb_exists.
  exists geo. split; [exact Hin|]. rewrite Ho. simpl. apply Nat.eqb_refl.
Qed.

(** X14.  [Link.__init__] on a named link whose visuals and collisions all
    have an origin: every geometry that had no name gets the link's name
    followed by [_collision] (when it is among the collisions) or
    [_visual], never a number, so two unnamed visuals end up with the same
    name; names and frames that were set are kept; afterwards every
    geometry of the link has a name and an origin with a frame.  An
    [origin] argument is refused and a geometry without origin raises
    [AttributeError]. *)
Theorem Link_init_names_and_frames
  (g : GeoHeap) (n : string) (vs cs : list ref) :
  ((forall geo, In geo (vs ++ cs) -> geo_origin_at g geo <> None) ->
   exists g',
     Link_init (Some n) (Some vs) (Some cs) None g
       = (g', Return {| lname := Some n; link_visuals := vs;
                        link_collisions := cs |}) /\
     (forall x, geo_name_at g' x =
                match geo_name_at g x with
                | Some s => Some s
                | None => if obj_in x cs then Some (n ++ "_collision")%string
                          else if obj_in x vs then Some (n ++ "_visual")%string
                          else None
                end) /\
     (forall o, frame_at g' o =
                match frame_at g o with
                | Some f => Some f
                | None => if origin_among g (vs ++ cs) o then Some n else None
                end) /\
     (forall geo, In geo (vs ++ cs) ->
                  geo_name_at g' geo <> None /\
                  exists o, geo_origin_at g' geo = Some o /\
                            frame_at g' o <> None) /\
     (forall a b, In a vs -> In b vs -> ~ In a cs -> ~ In b cs ->
                  geo_name_at g a = None -> geo_name_at g b = None ->
                  geo_name_at g' a = Some (n ++ "_visual")%string /\
                  geo_name_at g' b = Some (n ++ "_visual")%string)) /\
  (forall o, Link_init (Some n) (Some vs) (Some cs) (Some o) g
             = (g, Raise AssertionError)) /\
  (forall geo rest,
     geo_origin_at g geo = None ->
     snd (Link_init (Some n) (Some (geo :: rest)) (Some cs) None g)
     = Raise AttributeError).
Proof.
  split; [|split].
  - intros Horig.
    destruct (fill_frames_spec (Some n) (vs ++ cs) g Horig)
      as (g1 & Hrun1 & Hn1 & Ho1 & Hc1 & Hf1).
    destruct (fill_names_spec n "_collision" cs g1)
      as (g2 & Hrun2 & Ho2 & Hc2 & Hf2 & Hn2).
    destruct (fill_names_spec n "_visual" vs g2)
      as (g3 & Hrun3 & Ho3 & Hc3 & Hf3 & Hn3).
    assert (Hnames : forall x, geo_name_at g3 x =
                match geo_name_at g x with
                | Some s => Some s
                | None => if obj_in x cs then Some (n ++ "_collision")%string
                          else if obj_in x vs then Some (n ++ "_visual")%string
                          else None
                end).
    { intros x. rewrite Hn3, Hn2, Hn1.
      destruct (geo_name_at g x); [reflexivity|].
      now destruct (obj_in x cs). }
    assert (Hframes : forall o, frame_at g3 o =
                match frame_at g o with
                | Some f => Some f
                | None => if origin_among g (vs ++ cs) o then Some n else None
                end).
    { intros o. now rewrite Hf3, Hf2, Hf1. }
    exists g3. split; [|split; [|split; [|split]]].
    + unfold Link_init. rewrite Hrun1, Hrun2, Hrun3. reflexivity.
    + exact Hnames.
    + exact Hframes.
    + intros geo Hin. split.
      * rewrite Hnames. destruct (geo_name_at g geo); [discriminate|].
        apply in_app_or in Hin.
        destruct (obj_in geo cs) eqn:Ec; [discriminate|].
        destruct Hin as [Hin|Hin].
        -- apply obj_in_In in Hin. rewrite Hin. discriminate.
        -- apply obj_in_In in Hin. congruence.
      * destruct (geo_origin_at g geo) as [o|] eqn:Eo;
          [|exfalso; exact (Horig geo Hin Eo)].
        exists o. split; [now rewrite Ho3, Ho2, Ho1|].
        rewrite Hframes. destruct (frame_at g o); [discriminate|].
        rewrite (origin_among_In g (vs ++ cs) geo Hin Eo). discriminate.
    + intros a b Ha Hb Hac Hbc Hna Hnb. rewrite !Hnames, Hna, Hnb.
      apply obj_in_In in Ha, Hb.
      assert (Ea : obj_in a cs = false).
      { apply not_true_iff_false. now rewrite obj_in_In. }
      assert (Eb : obj_in b cs = false).
      { apply not_true_iff_false. now rewrite obj_in_In. }
      now rewrite Ea, Eb, Ha, Hb.
  - reflexivity.
  - intros geo rest Hnone. unfold Link_init. cbn [app fill_frames].
    now rewrite Hnone.
Qed.

Lemma Link_init_names_and_frames_witness :
  exists g',
    fst (Link_init (Some "base") (Some [0; 1]) (Some []) None
           unnamed_visuals_heap) = g' /\
    geo_name_at g' 0 = Some "base_visual" /\
    geo_name_at g' 1 = Some "base_visual".
Proof.
  destruct (proj1 (Link_init_names_and_frames unnamed_visuals_heap
                     "base" [0; 1] []))
    as (g' & Hrun & _ & _ & _ & Hdup).
  { intros geo _. discriminate. }
  exists g'. split; [exact (f_equal fst Hrun)|].
  apply (Hdup 0 1); simpl; auto.
Defined.

Lemma list_remove_app_new elem l :
  ~ In elem l -> list_remove elem (l ++ [elem]) = Some l.
Proof.
  induction l as [|x l IH]; simpl; intros Hnot.
  - now rewrite Nat.eqb_refl.
  - destruct (Nat.eqb_spec x elem) as [->|Hne]; [exfalso; auto|].
    rewrite IH; [reflexivity | tauto].
Qed.

Lemma list_remove_absent elem l :
  list_remove elem l = None <-> ~ In elem l.
Proof.
  induction l as [|x l IH]; simpl.
  - tauto.
  - destruct (Nat.eqb_spec x elem) as [->|Hne].
    + split; [discriminate | intros H; exfalso; auto].
    + destruct (list_remove elem l); simpl.
      * split; [discriminate|]. intros H. exfalso.
        destruct IH as [_ IH]. assert (Hn : ~ In elem l) by tauto.
        specialize (IH Hn). discriminate.
      * split; [|reflexivity]. intros _ [H|H]; [congruence|].
        now apply (proj1 IH).
Qed.

(** X15.  [Link.add_aggregate] followed by [Link.remove_aggregate] gives
    the link back when the object is a Visual, or a Collision not passed
    under the type name [visual], and was not yet in its list.  A
    Collision passed under the type name [visual] lands among the visuals,
    where [remove_aggregate] does not look: it raises [ValueError].
    Removing an object that is in neither list raises [ValueError]; an
    object of another class with another type name is ignored by both. *)
Theorem Link_add_remove_aggregate (g : GeoHeap) (self : LinkObj)
  (elem_type : string) (elem : ref) :
  (geo_class_at g elem = VisualClass ->
   ~ In elem (link_visuals self) ->
   Link_remove_aggregate g (Link_add_aggregate g self elem_type elem) elem
   = Return self) /\
  (geo_class_at g elem = CollisionClass ->
   str_lower elem_type <> "visual" ->
   ~ In elem (link_collisions self) ->
   Link_remove_aggregate g (Link_add_aggregate g self elem_type elem) elem
   = Return self) /\
  (geo_class_at g elem = CollisionClass ->
   str_lower elem_type = "visual" ->
   ~ In elem (link_collisions self) ->
   In elem (link_visuals (Link_add_aggregate g self elem_type elem)) /\
   Link_remove_aggregate g (Link_add_aggregate g self elem_type elem) elem
   = Raise ValueError) /\
  (geo_class_at g elem = VisualClass ->
   ~ In elem (link_visuals self) ->
   Link_remove_aggregate g self elem = Raise ValueError) /\
  (geo_class_at g elem = CollisionClass ->
   ~ In elem (link_collisions self) ->
   Link_remove_aggregate g self elem = Raise ValueError) /\
  (geo_class_at g elem = OtherClass ->
   str_lower elem_type <> "visual" ->
   str_lower elem_type <> "collision" ->
   Link_add_aggregate g self elem_type elem = self /\
   Link_remove_aggregate g self elem = Return self).
Proof.
  destruct self as [nm vs cs].
  unfold Link_add_aggregate, Link_remove_aggregate. cbn [lname link_visuals link_collisions].
  split; [|split; [|split; [|split; [|split]]]].
  - intros Hc Hnot. rewrite Hc. cbn [orb lname link_visuals link_collisions].
    now rewrite (list_remove_app_new _ _ Hnot).
  - intros Hc Hty Hnot. rewrite Hc. cbn [orb].
    destruct (String.eqb_spec (str_lower elem_type) "visual"); [contradiction|].
    cbn [lname link_visuals link_collisions].
    now rewrite (list_remove_app_new _ _ Hnot).
  - intros Hc Hty Hnot. rewrite Hc, Hty. rewrite String.eqb_refl.
    cbn [orb lname link_visuals link_collisions]. split.
    + apply in_or_app. right. now left.
    + now rewrite (proj2 (list_remove_absent elem cs) Hnot).
  - intros Hc Hnot. rewrite Hc.
    now rewrite (proj2 (list_remove_absent elem vs) Hnot).
  - intros Hc Hnot. rewrite Hc.
    now rewrite (proj2 (list_remove_absent elem cs) Hnot).
  - intros Hc Hv Hco. rewrite Hc. cbn [orb].
    destruct (String.eqb_spec (str_lower elem_type) "visual"); [contradiction|].
    destruct (String.eqb_spec (str_lower elem_type) "collision");
      [contradiction|].
    split; reflexivity.
Qed.

Lemma Link_add_remove_aggregate_witness :
  Link_remove_aggregate mixed_geo_heap
    (Link_add_aggregate mixed_geo_heap bare_base_link "Visual" 0) 0
    = Return bare_base_link /\
  Link_remove_aggregate mixed_geo_heap
    (Link_add_aggregate mixed_geo_heap bare_base_link "Visual" 1) 1
    = Raise ValueError.
Proof.
  split.
  - apply (proj1 (Link_add_remove_aggregate mixed_geo_heap bare_base_link
                    "Visual" 0));
      [reflexivity | intros []].
  - apply (proj1 (proj2 (proj2 (Link_add_remove_aggregate mixed_geo_heap
                                  bare_base_link "Visual" 1))));
      [reflexivity | reflexivity | intros []].
Defined.

(** ** Motor limits *)

Lemma limit_field_set field lim self j l :
  _joint self = Some j ->
  limit_field field (set_limit lim j l) self = field l.
Proof.
  intros Hj. unfold limit_field, set_limit. rewrite Hj.
  now rewrite Nat.eqb_refl.
Qed.

Lemma store_limit_bound lim self j write fresh :
  _joint self = Some j ->
  store_limit lim self write fresh =
  Return (set_limit lim j match lim j with
                          | Some l => write l
                          | None => fresh
                          end).
Proof.
  intros Hj. unfold store_limit. rewrite Hj. now destruct (lim j).
Qed.

(** X16.  For a motor bound to a joint, assigning a positive number to
    [maxEffort] or [maxSpeed] makes the property read that number back and
    leaves the other three properties and the limits of all other joints
    as they were, also when the joint had no limit yet.  A number that is
    not positive, or a value that is no number, changes nothing.  Without
    a joint the four properties read 0 and assigning a positive number
    raises [AttributeError]. *)
Theorem motor_effort_speed_set_then_get (lim : limits) (self : Motor) :
  (forall j e,
     _joint self = Some j -> (0 < e)%R ->
     exists lim',
       set_maxEffort lim self (Number e) = Return lim' /\
       maxEffort lim' self = Some e /\
       maxSpeed lim' self = maxSpeed lim self /\
       minValue lim' self = minValue lim self /\
       maxValue lim' self = maxValue lim self /\
       forall j', j' <> j -> lim' j' = lim j') /\
  (forall j s,
     _joint self = Some j -> (0 < s)%R ->
     exists lim',
       set_maxSpeed lim self (Number s) = Return lim' /\
       maxSpeed lim' self = Some s /\
       maxEffort lim' self = maxEffort lim self /\
       minValue lim' self = minValue lim self /\
       maxValue lim' self = maxValue lim self /\
       forall j', j' <> j -> lim' j' = lim j') /\
  (forall e, (e <= 0)%R ->
             set_maxEffort lim self (Number e) = Return lim /\
             set_maxSpeed lim self (Number e) = Return lim) /\
  (set_maxEffort lim self NotNumber = Return lim /\
   set_maxSpeed lim self NotNumber = Return lim) /\
  (_joint self = None ->
   maxEffort lim self = Some 0%R /\ maxSpeed lim self = Some 0%R /\
   minValue lim self = Some 0%R /\ maxValue lim self = Some 0%R /\
   forall e, (0 < e)%R ->
             set_maxEffort lim self (Number e) = Raise AttributeError /\
             set_maxSpeed lim self (Number e) = Raise AttributeError).
Proof.
  split; [|split; [|split; [|split]]].
  - intros j e Hj He. unfold set_maxEffort.
    destruct (Rlt_dec 0 e) as [_|N]; [|contradiction].
    rewrite (store_limit_bound _ _ _ _ Hj). eexists. split; [reflexivity|].
    unfold maxEffort, maxSpeed, minValue, maxValue.
    rewrite !(limit_field_set _ _ _ _ Hj).
    repeat split.
    + now destruct (lim j).
    + destruct (lim j) eqn:E; simpl; unfold limit_field; now rewrite Hj, E.
    + destruct (lim j) eqn:E; simpl; unfold limit_field; now rewrite Hj, E.
    + destruct (lim j) eqn:E; simpl; unfold limit_field; now rewrite Hj, E.
    + intros j' Hne. unfold set_limit.
      destruct (Nat.eqb_spec j' j); [contradiction | reflexivity].
  - intros j s Hj Hs. unfold set_maxSpeed.
    destruct (Rlt_dec 0 s) as [_|N]; [|contradiction].
    rewrite (store_limit_bound _ _ _ _ Hj). eexists. split; [reflexivity|].
    unfold maxEffort, maxSpeed, minValue, maxValue.
    rewrite !(limit_field_set _ _ _ _ Hj).
    repeat split.
    + now destruct (lim j).
    + destruct (lim j) eqn:E; simpl; unfold limit_field; now rewrite Hj, E.
    + destruct (lim j) eqn:E; simpl; unfold limit_field; now rewrite Hj, E.
    + destruct (lim j) eqn:E; simpl; unfold limit_field; now rewrite Hj, E.
    + intros j' Hne. unfold set_limit.
      destruct (Nat.eqb_spec j' j); [contradiction | reflexivity].
  - intros e He. unfold set_maxEffort, set_maxSpeed.
    destruct (Rlt_dec 0 e); [lra | split; reflexivity].
  - split; reflexivity.
  - intros Hj. unfold maxEffort, maxSpeed, minValue, maxValue, limit_field.
    rewrite Hj. repeat split; unfold set_maxEffort, set_maxSpeed, store_limit;
      rewrite Hj; destruct (Rlt_dec 0 e); try reflexivity; contradiction.
Qed.

Lemma motor_effort_speed_set_then_get_witness :
  exists lim',
    set_maxEffort (fun _ => None) bound_motor (Number 5%R) = Return lim' /\
    maxEffort lim' bound_motor = Some 5%R /\
    maxValue lim' bound_motor = Some 0%R.
Proof.
  destruct (proj1 (motor_effort_speed_set_then_get (fun _ => None) bound_motor)
              0 5%R eq_refl ltac:(lra))
    as (lim' & Hset & Hget & _ & _ & Hmax & _).
  exists lim'. split; [exact Hset|]. split; [exact Hget|].
  rewrite Hmax. reflexivity.
Defined.

(** X17.  The setters of [minValue] and [maxValue] keep the range in
    order: for a motor bound to a joint whose range satisfies
    [minValue <= maxValue] -- a joint without limit reads 0 and 0 -- an
    assignment is carried out exactly when the new bound stays on its side
    of the other one, it then reads back, and in both cases the range is
    still in order.  If the other bound is [None] the comparison raises
    [TypeError]. *)
Theorem motor_range_stays_ordered (lim : limits) (self : Motor) (j : ref) :
  _joint self = Some j ->
  (lim j = None -> range_ordered lim self) /\
  (forall lo hi v,
     minValue lim self = Some lo -> maxValue lim self = Some hi ->
     (lo <= hi)%R ->
     exists lim',
       set_maxValue lim self (Number v) = Return lim' /\
       range_ordered lim' self /\
       minValue lim' self = Some lo /\
       ((lo <= v)%R -> maxValue lim' self = Some v) /\
       ((v < lo)%R -> lim' = lim)) /\
  (forall lo hi v,
     minValue lim self = Some lo -> maxValue lim self = Some hi ->
     (lo <= hi)%R ->
     exists lim',
       set_minValue lim self (Number v) = Return lim' /\
       range_ordered lim' self /\
       maxValue lim' self = Some hi /\
       ((v <= hi)%R -> minValue lim' self = Some v) /\
       ((hi < v)%R -> lim' = lim)) /\
  (forall v, minValue lim self = None ->
             set_maxValue lim self (Number v) = Raise TypeError) /\
  (forall v, maxValue lim self = None ->
             set_minValue lim self (Number v) = Raise TypeError).
Proof.
  intros Hj. split; [|split; [|split; [|split]]].
  - intros Hnone. exists 0%R, 0%R.
    unfold minValue, maxValue, limit_field. rewrite Hj, Hnone.
    repeat split. lra.
  - intros lo hi v Hlo Hhi Hle. unfold set_maxValue. rewrite Hlo.
    destruct (Rge_dec v lo) as [Hge|Hlt].
    + rewrite (store_limit_bound _ _ _ _ Hj). eexists. split; [reflexivity|].
      assert (Hmin : minValue (set_limit lim j
                        match lim j with
                        | Some l => {| effort := effort l; velocity := velocity l;
                                       lower := lower l; upper := Some v |}
                        | None => {| effort := maxEffort lim self;
                                     velocity := maxSpeed lim self;
                                     lower := Some lo; upper := Some v |}
                        end) self = Some lo).
      { unfold minValue in *. rewrite (limit_field_set _ _ _ _ Hj).
        unfold limit_field in Hlo. rewrite Hj in Hlo.
        destruct (lim j); [exact Hlo | reflexivity]. }
      assert (Hmax : maxValue (set_limit lim j
                        match lim j with
                        | Some l => {| effort := effort l; velocity := velocity l;
                                       lower := lower l; upper := Some v |}
                        | None => {| effort := maxEffort lim self;
                                     velocity := maxSpeed lim self;
                                     lower := Some lo; upper := Some v |}
                        end) self = Some v).
      { unfold maxValue. rewrite (limit_field_set _ _ _ _ Hj).
        now destruct (lim j). }
      split; [|split; [exact Hmin | split; [intros _; exact Hmax | intros; lra]]].
      exists lo, v. repeat split; auto. lra.
    + eexists. split; [reflexivity|].
      split; [exists lo, hi; auto|]. split; [exact Hlo|].
      split; [intros; lra | reflexivity].
  - intros lo hi v Hlo Hhi Hle. unfold set_minValue. rewrite Hhi.
    destruct (Rle_dec v hi) as [Hge|Hlt].
    + rewrite (store_limit_bound _ _ _ _ Hj). eexists. split; [reflexivity|].
      assert (Hmax : maxValue (set_limit lim j
                        match lim j with
                        | Some l => {| effort := effort l; velocity := velocity l;
                                       lower := Some v; upper := upper l |}
                        | None => {| effort := maxEffort lim self;
                                     velocity := maxSpeed lim self;
                                     lower := Some v; upper := Some hi |}
                        end) self = Some hi).
      { unfold maxValue in *. rewrite (limit_field_set _ _ _ _ Hj).
        unfold limit_field in Hhi. rewrite Hj in Hhi.
        destruct (lim j); [exact Hhi | reflexivity]. }
      assert (Hmin : minValue (set_limit lim j
                        match lim j with
                        | Some l => {| effort := effort l; velocity := velocity l;
                                       lower := Some v; upper := upper l |}
                        | None => {| effort := maxEffort lim self;
                                     velocity := maxSpeed lim self;
                                     lower := Some v; upper := Some hi |}
                        end) self = Some v).
      { unfold minValue. rewrite (limit_field_set _ _ _ _ Hj).
        now destruct (lim j). }
      split; [|split; [exact Hmax | split; [intros _; exact Hmin | intros; lra]]].
      exists v, hi. repeat split; auto.
    + eexists. split; [reflexivity|].
      split; [exists lo, hi; auto|]. split; [exact Hhi|].
      split; [intros; lra | reflexivity].
  - intros v Hnone. unfold set_maxValue. now rewrite Hnone.
  - intros v Hnone. unfold set_minValue. now rewrite Hnone.
Qed.

Lemma motor_range_stays_ordered_witness :
  exists lim',
    set_maxValue (fun _ => None) bound_motor (Number 2%R) = Return lim' /\
    range_ordered lim' bound_motor /\
    maxValue lim' bound_motor = Some 2%R.
Proof.
  destruct (proj1 (proj2 (motor_range_stays_ordered (fun _ => None)
                            bound_motor (j := 0) eq_refl))
              0%R 0%R 2%R eq_refl eq_refl ltac:(lra))
    as (lim' & Hset & Hord & _ & Hmax & _).
  exists lim'. split; [exact Hset|]. split; [exact Hord|].
  apply Hmax. lra.
Defined.

(** ** From a pose to its matrix and back *)

(** X18.  For a pose with a 3-vector [xyz] and a rotation that converts to
    a 3x3 block, [to_matrix] gives a 4x4 matrix with that block, the
    translation [xyz] in the last column and the bottom row [[0,0,0,1]];
    [from_matrix] reads exactly these back, so the pose it returns has the
    rounded [xyz] as translation and, as rotation, the rounded angles of
    the block. *)
Theorem pose_matrix_pose
  (rpy_to_matrix : list R -> matrix) (matrix_to_rpy : matrix -> list R)
  (round_array : list R -> pyval -> outcome (list R))
  (p : Pose) (x y z : R) (a : list R) :
  xyz p = Some [x; y; z] ->
  rpy p = Some a ->
  List.length (rpy_to_matrix a) = 3 ->
  Forall (fun row => List.length row = 3) (rpy_to_matrix a) ->
  exists T,
    to_matrix rpy_to_matrix p = Return T /\
    List.length T = 4 /\
    Forall (fun row => List.length row = 4) T /\
    nth 3 T [] = [0%R; 0%R; 0%R; 1%R] /\
    column 3 (firstn 3 T) = [x; y; z] /\
    map (firstn 3) (firstn 3 T) = rpy_to_matrix a /\
    forall dec rel,
      from_matrix matrix_to_rpy round_array T dec rel
      = (xyz' <- round_array [x; y; z] dec ;;
         rpy' <- round_array (matrix_to_rpy (rpy_to_matrix a)) dec ;;
         Return {| xyz := Some xyz'; rpy := Some rpy'; relative_to := rel |}).
Proof.
  intros Hx Ha Hrows Hcols. unfold to_matrix. rewrite Ha, Hx.
  eexists. split; [reflexivity|].
  destruct (rpy_to_matrix a) as [|r0 [|r1 [|r2 [|r3 Rm]]]]; try discriminate.
  inversion Hcols as [|? ? H0 Hc1]; subst.
  inversion Hc1 as [|? ? H1 Hc2]; subst.
  inversion Hc2 as [|? ? H2 _]; subst.
  destruct r0 as [|a0 [|a1 [|a2 [|a3 r0]]]]; try discriminate.
  destruct r1 as [|b0 [|b1 [|b2 [|b3 r1]]]]; try discriminate.
  destruct r2 as [|c0 [|c1 [|c2 [|c3 r2]]]]; try discriminate.
  repeat split.
  - repeat constructor.
Qed.

Lemma pose_matrix_pose_witness :
  exists T,
    to_matrix rpy_rotation j1_origin = Return T /\
    column 3 (firstn 3 T) = [1%R; 0%R; 0%R].
Proof.
  destruct (pose_matrix_pose rpy_rotation (fun _ => [0%R; 0%R; 0%R])
              integer_dec_round j1_origin (a := [0%R; 0%R; 0%R])
              eq_refl eq_refl eq_refl)
    as (T & HT & _ & _ & _ & Hcol & _).
  { repeat constructor. }
  exists T. split; assumption.
Defined.

(** ** What linking a visual leaves alone *)

(** X19.  [Visual.link_with_robot] never removes or reorders materials and
    never touches the joint and link indices: whatever its outcome, the
    material list afterwards is the list before, possibly with the
    visual's own material appended, and every other object keeps its
    name. *)
Theorem link_visual_only_appends (v : Visual) (h : Heap) (self : XMLRobot) :
  let st' := fst (Visual_link_with_robot v (h, self)) in
  (materials (snd st') = materials self \/
   exists m, _material v = Some m /\
             materials (snd st') = materials self ++ [m]) /\
  (forall o, _material v <> Some o -> name_at (fst st') o = name_at h o) /\
  joints (snd st') = joints self /\ links (snd st') = links self /\
  joint_map (snd st') = joint_map self /\ link_map (snd st') = link_map self /\
  parent_map (snd st') = parent_map self /\
  child_map (snd st') = child_map self.
Proof.
  unfold Visual_link_with_robot.
  destruct (visual_origin v); [|simpl; repeat split; auto].
  destruct (_material v) as [m|]; [|simpl; repeat split; auto].
  cbn [fst snd].
  destruct (get_material h self (name_at h m)).
  - destruct (opt_ref_eqb _ _); simpl; repeat split; auto.
  - rewrite add_material. cbn [fst snd].
    destruct (opt_ref_eqb _ _); cbn [fst snd].
    + split; [right; exists m; split; reflexivity|].
      split; [|repeat split].
      intros o Ho. destruct (collisions h m (materials self)); [reflexivity|].
      simpl. destruct (Nat.eqb_spec o m); [congruence | reflexivity].
    + split; [right; exists m; split; reflexivity|].
      split; [|repeat split].
      intros o Ho. destruct (collisions h m (materials self)); [reflexivity|].
      simpl. destruct (Nat.eqb_spec o m); [congruence | reflexivity].
Qed.

(** ** Renaming can collide *)

(** X20.  The renaming that [add_aggregate] does for the generic
    collections does not make names unique: when the collection holds
    another object that already carries the name with the suffix the new
    element is about to get, both are in the collection under that same
    name afterwards. *)
Theorem add_aggregate_rename_can_duplicate
  (h : Heap) (self : XMLRobot) (typeName : string) (elem other : ref)
  (objects : list ref) :
  ~ In typeName ["joint"; "joints"; "link"; "links"] ->
  getattr_list self (plural typeName) = Return objects ->
  In other objects ->
  other <> elem ->
  name_at h other
    = (name_at h elem ++ "_" ++ format_nat (collisions h elem objects))%string ->
  exists h' self',
    add_aggregate typeName elem (h, self) = Return (h', self') /\
    getattr_list self' (plural typeName) = Return (objects ++ [elem]) /\
    name_at h' elem = name_at h' other.
Proof.
  intros Hkind Hget Hin Hne Hname.
  assert (Hpos : collisions h elem objects <> 0).
  { rewrite collisions_zero. intros H. specialize (H other Hin).
    apply not_true_iff_false in H. apply H. apply str_in_substring.
    exists EmptyString. eexists. rewrite Hname. reflexivity. }
  exists (match collisions h elem objects with
          | O => h
          | S _ => set_name h elem
                     (name_at h elem ++ "_"
                      ++ format_nat (collisions h elem objects))%string
          end),
         (setattr_list self (plural typeName) (objects ++ [elem])).
  split; [now apply add_aggregate_generic|].
  split; [now apply getattr_setattr with (objs := objects)|].
  destruct (collisions h elem objects) as [|k] eqn:E; [contradiction|].
  simpl. rewrite Nat.eqb_refl.
  destruct (Nat.eqb_spec other elem); [contradiction|].
  symmetry. exact Hname.
Qed.

Lemma add_aggregate_rename_can_duplicate_witness :
  exists h' self',
    add_aggregate "material" 11 (paint_heap, paint_robot) = Return (h', self') /\
    getattr_list self' "materials" = Return [10; 11] /\
    name_at h' 11 = name_at h' 10.
Proof.
  assert (Hkind : ~ In "material" ["joint"; "joints"; "link"; "links"]).
  { simpl. intuition discriminate. }
  exact (add_aggregate_rename_can_duplicate paint_heap paint_robot
           (typeName := "material") (elem := 11) (other := 10)
           (objects := [10]) Hkind eq_refl (or_introl eq_refl)
           ltac:(discriminate) eq_refl).
Defined.

(** ** Chains of joints, and chains against levels *)

Lemma chain_of_joints h self root path :
  chain_of h self true false true root path = map fst path.
Proof.
  unfold chain_of. simpl.
  induction path as [|jc path IH]; simpl; [reflexivity | now rewrite IH].
Qed.

Lemma chain_of_nothing h self root fixed path :
  chain_of h self false false fixed root path = [].
Proof.
  unfold chain_of. simpl.
  induction path as [|jc path IH]; simpl; [reflexivity | exact IH].
Qed.

(** X21.  With [links=False], [get_chain] returns just the names of the
    joints crossed from the root down to the tip, one per level; with
    [joints=False] as well it returns the empty list; and
    [get_chain(x, x)] is [[x]] for any name [x], known to the robot or
    not. *)
Theorem get_chain_joints_only (h : Heap) (self : XMLRobot) (root tip : string) :
  (forall path fuel,
     descends self root tip path ->
     List.length path < fuel ->
     get_chain fuel h self root tip true false true = Return (map fst path) /\
     get_chain fuel h self root tip false false true = Return []) /\
  (forall x fuel joints fixed,
     0 < fuel ->
     get_chain fuel h self x x joints true fixed = Return [x]).
Proof.
  split.
  - intros path fuel Hd Hfuel. split.
    + rewrite <- (chain_of_joints h self root path).
      apply get_chain_descends; auto. intros _ Hf. discriminate.
    + rewrite <- (chain_of_nothing h self root true path).
      apply get_chain_descends; auto. intros Hj. discriminate.
  - intros x fuel joints fixed Hfuel.
    destruct fuel; [inversion Hfuel|].
    unfold get_chain. simpl. now rewrite String.eqb_refl.
Qed.

Lemma get_chain_joints_only_witness :
  get_chain 2 two_link_heap two_link_robot "base" "arm" true false true
  = Return ["j1"].
Proof.
  assert (Hd : descends two_link_robot "base" "arm" ([] ++ [("j1", "arm")])).
  { apply descends_step with (p := "base");
      [constructor | discriminate | reflexivity]. }
  apply (proj1 (proj1 (get_chain_joints_only two_link_heap two_link_robot
                         "base" "arm") _ 2 Hd ltac:(simpl; lia))).
Defined.

(** X22.  On a robot indexed from joints with pairwise distinct names --
    with or without an origin pose -- the chain from a parentless root to
    a link below it and the level of that link agree:
    [get_chain(root, l, joints=False)] has one entry more than
    [get_link_level(l)], and [get_chain(root, l, links=False)] has as many
    joints as the level. *)
Theorem chain_length_is_level_plus_one
  (h : Heap) (inserted : list ref) (r : XMLRobot)
  (root l : string) (path : list (string * string)) (fuel : nat) :
  in_sync h inserted r ->
  NoDup (map (fun j => joint_name (joint_at h j)) inserted) ->
  descends r root l path ->
  dict_get (parent_map r) root = None ->
  path <> [] ->
  List.length path < fuel ->
  exists level links joints,
    get_link_level fuel h r l = Return level /\
    get_chain fuel h r root l false true true = Return links /\
    get_chain fuel h r root l true false true = Return joints /\
    List.length links = S level /\
    List.length joints = level.
Proof.
  intros Hs Hnames Hd Hroot Hnil Hfuel.
  assert (Hchild : dict_mem root (child_map r) = true)
    by exact (descends_root_has_child Hs Hd Hnil).
  destruct (get_link_level_loop_descends Hs Hnames Hd Hroot Hchild 0 Hfuel)
    as (x & Hx & Hloop).
  exists (List.length path), (root :: map snd path), (map fst path).
  split; [|split; [|split; [|split]]].
  - unfold get_link_level. rewrite Hx. exact Hloop.
  - rewrite <- (chain_of_links h r root true path).
    apply get_chain_descends; auto. intros Hj. discriminate.
  - rewrite <- (chain_of_joints h r root path).
    apply get_chain_descends; auto. intros _ Hf. discriminate.
  - simpl. now rewrite length_map.
  - now rewrite length_map.
Qed.

Lemma chain_length_is_level_plus_one_witness :
  _origin (joint_at blank_root_heap j1_ref) = None /\
  exists level links joints,
    get_link_level 2 blank_root_heap blank_root_robot "arm" = Return level /\
    get_chain 2 blank_root_heap blank_root_robot EmptyString "arm"
      false true true = Return links /\
    get_chain 2 blank_root_heap blank_root_robot EmptyString "arm"
      true false true = Return joints /\
    List.length links = S level /\
    List.length joints = level.
Proof.
  split; [reflexivity|].
  refine (@chain_length_is_level_plus_one blank_root_heap [j1_ref]
            blank_root_robot EmptyString "arm" ([] ++ [("j", "arm")]) 2
            blank_root_in_sync _ _ eq_refl _ _).
  - simpl. repeat constructor. intros [].
  - apply descends_step with (p := EmptyString);
      [constructor | discriminate | reflexivity].
  - discriminate.
  - simpl. lia.
Defined.

(** ** Instances on the two-link robot *)

Lemma add_links_register_by_name_witness :
  exists self',
    add_all "link" [base_ref; arm_ref] (two_link_heap, empty_robot)
      = Return (two_link_heap, self') /\
    dict_get (link_map self') "arm" = Some arm_ref /\
    NoDup (links self').
Proof.
  destruct (add_links_register_by_name two_link_heap [base_ref; arm_ref]
              empty_robot)
    as (self' & Hadd & Hmap & _ & Hnd & _).
  exists self'. split; [exact Hadd|]. split.
  - rewrite Hmap. reflexivity.
  - apply Hnd. constructor.
Defined.

Lemma constructed_robot_root_witness :
  exists r,
    XMLRobot_init two_link_heap [j1_ref] [base_ref; arm_ref]
      = Return (two_link_heap, r) /\
    get_root r = Return "base".
Proof.
  destruct (constructed_robot_root two_link_heap [j1_ref] [base_ref; arm_ref])
    as (r & Hinit & _ & _ & Hroot & _).
  exists r. split; [exact Hinit|].
  apply Hroot. split.
  - split; [now left | intros [H|[]]; discriminate].
  - intros l [<-|[<-|[]]] Hnot; [reflexivity|].
    exfalso. apply Hnot. now left.
Defined.

Lemma get_id_is_position_of_lookup_witness :
  exists r,
    get_link_id two_link_heap two_link_robot "arm" = Return r /\
    match r with
    | None => get_link two_link_heap two_link_robot "arm" = Return None
    | Some i =>
        exists l, nth_error (links two_link_robot) i = Some l /\
                  get_link two_link_heap two_link_robot "arm" = Return (Some l) /\
                  forall m x, m < i ->
                              nth_error (links two_link_robot) m = Some x ->
                              link_name (link_at two_link_heap x) <> "arm"
    end.
Proof.
  exact (proj2 (get_id_is_position_of_lookup two_link_heap two_link_robot "arm")).
Defined.

Lemma link_visual_only_appends_witness :
  materials (snd (fst (Visual_link_with_robot (visual_of 11)
                         (paint_heap, paint_robot))))
  = materials paint_robot \/
  exists m, _material (visual_of 11) = Some m /\
            materials (snd (fst (Visual_link_with_robot (visual_of 11)
                                   (paint_heap, paint_robot))))
            = materials paint_robot ++ [m].
Proof.
  exact (proj1 (link_visual_only_appends (visual_of 11) paint_heap paint_robot)).
Defined.
